(** * PDF to Audiobook Converter: a shallow embedding of [main.py]

    The program is a three-stage pipeline: [extract_text_from_pdf] reads the
    pages of an uploaded PDF and cleans the text, [convert_text_to_mp3] sends
    the text to the gTTS service and collects the MP3 bytes in a [BytesIO],
    and the module-level block presents the preview, the player and the
    download button through Streamlit.

    Python values are modelled as follows.
    - [str]: a list of Unicode code points ([N]); [len], slicing and
      [str.split] all work on code points, not on encoded bytes.
    - [bytes]: [list byte].
    - [float]: the primitive binary64 floats of Rocq.
    - An exception caught by [except Exception as e] is [Raise e], where [e]
      is the text that [str(e)] gives.
    - The Streamlit calls and the request to the speech service are recorded
      as events by a writer monad; the PyMuPDF parser and the speech service
      themselves are parameters of the embedding. *)

From Stdlib Require Import Strings.Ascii Strings.String Strings.Byte.
From Stdlib Require Import Floats.PrimFloat.
From Stdlib Require Import List NArith ZArith Bool Lia.
Import ListNotations.

Set Implicit Arguments.

(** ** Python strings *)

Module Py.

Definition char := N.
Definition str := list char.

(** A literal of the source; all literals converted this way are ASCII. *)
Definition lit (s : string) : str :=
  map N_of_ascii (list_ascii_of_string s).

Definition LF : char := 10%N.
Definition CR : char := 13%N.
Definition SP : char := 32%N.

Definition str_eqb (a b : str) : bool :=
  if list_eq_dec N.eq_dec a b then true else false.

(** [str.isspace] on one code point: the table of CPython's
    [_PyUnicode_IsWhitespace] (bidirectional class WS, B or S, or general
    category Zs). *)
Definition isspace (c : char) : bool :=
  (((9 <=? c) && (c <=? 13)) || ((28 <=? c) && (c <=? 32))
   || (c =? 133) || (c =? 160) || (c =? 5760)
   || ((8192 <=? c) && (c <=? 8202))
   || (c =? 8232) || (c =? 8233) || (c =? 8239) || (c =? 8287)
   || (c =? 12288))%N.

(** [s.replace(old, new)] for one-character [old] and [new]. *)
Definition replace (old new : char) (s : str) : str :=
  map (fun c => if (c =? old)%N then new else c) s.

Fixpoint lstrip (s : str) : str :=
  match s with
  | [] => []
  | c :: s' => if isspace c then lstrip s' else s
  end.

Definition rstrip (s : str) : str := rev (lstrip (rev s)).

(** [s.strip()] with no argument. *)
Definition strip (s : str) : str := rstrip (lstrip s).

(** The word under construction is closed when a whitespace character or the
    end of the string is met; an empty one is not a word. *)
Definition flush (cur : str) : list str :=
  match cur with
  | [] => []
  | _ :: _ => [cur]
  end.

Fixpoint split_from (cur : str) (s : str) : list str :=
  match s with
  | [] => flush cur
  | c :: s' =>
      if isspace c then flush cur ++ split_from [] s'
      else split_from (cur ++ [c]) s'
  end.

(** [s.split()] with no argument: the maximal runs of non-whitespace. *)
Definition split (s : str) : list str := split_from [] s.

(** [sep.join(words)]. *)
Fixpoint join (sep : str) (words : list str) : str :=
  match words with
  | [] => []
  | [w] => w
  | w :: ws => w ++ sep ++ join sep ws
  end.

(** [s.rfind(c)] for a one-character [c]: the highest index, or -1. *)
Fixpoint rfind_from (i : Z) (s : str) (c : char) : Z :=
  match s with
  | [] => (-1)%Z
  | x :: s' =>
      let r := rfind_from (i + 1) s' c in
      if (0 <=? r)%Z then r
      else if (x =? c)%N then i else (-1)%Z
  end.

Definition rfind (s : str) (c : char) : Z := rfind_from 0 s c.

End Py.

Import Py.

(** Python slices with integer bounds: a negative bound counts from the end,
    and bounds outside the string are clipped. *)
Module Slice.

Definition norm (len : nat) (i : Z) : nat :=
  if (i <? 0)%Z then Z.to_nat (Z.max 0 (Z.of_nat len + i)) else Z.to_nat i.

(** [s[:hi]] *)
Definition to (hi : Z) (s : str) : str := firstn (norm (length s) hi) s.

(** [s[lo:]] *)
Definition from (lo : Z) (s : str) : str := skipn (norm (length s) lo) s.

(** [s[lo:hi]] *)
Definition between (lo hi : Z) (s : str) : str :=
  skipn (norm (length s) lo) (firstn (norm (length s) hi) s).

End Slice.

(** [len(s)] as a Python integer. *)
Definition len (A : Type) (s : list A) : Z := Z.of_nat (length s).

(** ** Exceptions *)

Inductive result (A : Type) : Type :=
| Ok (a : A)
| Raise (e : str).

Arguments Ok {A} a.
Arguments Raise {A} e.

Definition result_bind (A B : Type) (m : result A) (k : A -> result B)
  : result B :=
  match m with
  | Ok a => k a
  | Raise e => Raise e
  end.

Notation "x <-? m ;; k" := (result_bind m (fun x => k))
  (at level 61, m at next level, right associativity).

(** ** [os.path.splitext] *)

Module OsPath.

(** [os.path] is [posixpath] or [ntpath], by the platform the app runs on. *)
Inductive flavour := posix | nt.

Definition sep (os : flavour) : char :=
  match os with posix => 47%N | nt => 92%N end.

Definition altsep (os : flavour) : option char :=
  match os with posix => None | nt => Some 47%N end.

Definition extsep : char := 46%N.

(** The [while filenameIndex < dotIndex] loop of [genericpath._splitext]:
    the first character of the file name that is not a dot makes the dot at
    [dotIndex] the start of the extension. The loop runs at most
    [dotIndex - filenameIndex] times, which is the fuel [_splitext] gives. *)
Fixpoint skip_leading_dots (fuel : nat) (p : str) (filenameIndex dotIndex : Z)
  : str * str :=
  match fuel with
  | O => (p, [])
  | S fuel' =>
      if (filenameIndex <? dotIndex)%Z then
        if negb (str_eqb (Slice.between filenameIndex (filenameIndex + 1) p)
                         [extsep])
        then (Slice.to dotIndex p, Slice.from dotIndex p)
        else skip_leading_dots fuel' p (filenameIndex + 1) dotIndex
      else (p, [])
  end.

Definition _splitext (p : str) (sep : char) (altsep : option char)
    (extsep : char) : str * str :=
  let sepIndex := rfind p sep in
  let sepIndex :=
    match altsep with
    | Some a => Z.max sepIndex (rfind p a)
    | None => sepIndex
    end in
  let dotIndex := rfind p extsep in
  if (dotIndex >? sepIndex)%Z then
    let filenameIndex := (sepIndex + 1)%Z in
    skip_leading_dots (Z.to_nat (dotIndex - filenameIndex)) p
                      filenameIndex dotIndex
  else (p, []).

Definition splitext (os : flavour) (p : str) : str * str :=
  _splitext p (sep os) (altsep os) extsep.

End OsPath.

(** ** [io.BytesIO] *)

Module BytesIO.

Record t := mk { buf : list byte; pos : nat }.

(** [BytesIO()] *)
Definition new : t := mk [] 0.

(** [fp.write(data)]: writing no byte changes nothing; otherwise the bytes
    go in at the position, over what is there, after zero padding when the
    position is past the end. *)
Definition write (fp : t) (data : list byte) : t :=
  match data with
  | [] => fp
  | _ :: _ =>
      let before := firstn (pos fp) (buf fp)
                    ++ repeat x00 (pos fp - length (buf fp)) in
      let after := skipn (pos fp + length data) (buf fp) in
      mk (before ++ data ++ after) (pos fp + length data)
  end.

(** [fp.seek(offset)] from the start. *)
Definition seek (fp : t) (offset : nat) : t := mk (buf fp) offset.

(** [fp.read()]: everything from the position on. *)
Definition read (fp : t) : list byte := skipn (pos fp) (buf fp).

End BytesIO.

(** ** The external collaborators *)

(** A page of a PyMuPDF document: [page.get_text()] gives its text or raises. *)
Record page := Page { get_text : result str }.

Definition document := list page.

(** [doc.load_page(page_num)] *)
Definition load_page (doc : document) (page_num : nat) : result page :=
  match nth_error doc page_num with
  | Some p => Ok p
  | None => Raise (lit "page not in document")
  end.

(** The object Streamlit's [file_uploader] returns. *)
Record uploaded_file := UploadedFile { name : str; content : list byte }.

(** [pdf_file.read()] *)
Definition file_read (f : uploaded_file) : list byte := content f.

(** The arguments of [gTTS(text=..., lang=..., slow=...)]. *)
Record tts_request := TTS { tts_text : str; tts_lang : str; tts_slow : bool }.

(** What the user sees, and what is asked of the speech service, in order. *)
Inductive event :=
| st_spinner (msg : str)
| st_error (msg : str)
| st_success (msg : str)
| st_info (msg : str)
| st_expander (label : str)
| st_code (body : str)
| st_audio (data : BytesIO.t) (format : str)
| st_download_button (label : str) (data : BytesIO.t)
                     (file_name mime type_ : str)
| gTTS_call (req : tts_request).

(** ** The writer monad of the user interface *)

Definition ui (A : Type) : Type := (A * list event)%type.

Definition ret (A : Type) (a : A) : ui A := (a, []).

Definition bind (A B : Type) (m : ui A) (k : A -> ui B) : ui B :=
  let '(a, out) := m in
  let '(b, out') := k a in
  (b, out ++ out').

Definition emit (e : event) : ui unit := (tt, [e]).

Definition value (A : Type) (m : ui A) : A := fst m.
Definition shown (A : Type) (m : ui A) : list event := snd m.

Notation "x <- m ;; k" := (bind m (fun x => k))
  (at level 61, m at next level, right associativity).
Notation "m ;; k" := (bind m (fun _ => k))
  (at level 61, right associativity).

(** ** The program *)

Section Program.

(** [fitz.open(stream=..., filetype="pdf")]: the PyMuPDF parser. *)
Variable fitz_open : list byte -> result document.

(** [gTTS(...)] followed by [tts.write_to_fp(fp)]: the bytes the service
    writes for a request, unless the constructor or the transfer raises. *)
Variable gTTS : tts_request -> result (list byte).

(** [range(n)] *)
Definition range (n : nat) : list nat := seq 0 n.

(** The body of [for page_num in range(len(doc))]. *)
Fixpoint read_pages (doc : document) (page_nums : list nat) (text : str)
  : result str :=
  match page_nums with
  | [] => Ok text
  | page_num :: rest =>
      page <-? load_page doc page_num ;;
      t <-? get_text page ;;
      read_pages doc rest (text ++ (t ++ lit " "))
  end.

(** The text before cleaning: lines 28 to 33. *)
Definition page_text (doc : document) : result str :=
  read_pages doc (range (length doc)) (lit "").

(** Lines 36 and 37. *)
Definition clean_text (text : str) : str :=
  let cleaned_text := strip (replace CR SP (replace LF SP text)) in
  join (lit " ") (split cleaned_text).

(** What the [try] block of [extract_text_from_pdf] computes before it
    looks at the result. *)
Definition extract_body (pdf_file : uploaded_file) : result str :=
  let pdf_bytes := file_read pdf_file in
  doc <-? fitz_open pdf_bytes ;;
  text <-? page_text doc ;;
  Ok (clean_text text).

Definition no_text_message : str :=
  lit "Error: Could not extract any readable text from the PDF.".

Definition pdf_error_message (e : str) : str :=
  lit "An error occurred during PDF processing: " ++ e.

Definition extract_text_from_pdf (pdf_file : uploaded_file)
  : ui (option str) :=
  match extract_body pdf_file with
  | Ok cleaned_text =>
      match cleaned_text with
      | [] => emit (st_error no_text_message) ;; ret None
      | _ :: _ => ret (Some cleaned_text)
      end
  | Raise e => emit (st_error (pdf_error_message e)) ;; ret None
  end.

Definition audio_error_message (e : str) : str :=
  lit "An error occurred during audio conversion: " ++ e.

Definition convert_text_to_mp3 (text : str) (speed_rate pitch : float)
  : ui (option BytesIO.t) :=
  let is_slow := PrimFloat.ltb speed_rate 1.0%float in
  let req := TTS text (lit "en") is_slow in
  emit (gTTS_call req) ;;
  match gTTS req with
  | Ok payload =>
      let mp3_fp := BytesIO.new in
      let mp3_fp := BytesIO.write mp3_fp payload in
      let mp3_fp := BytesIO.seek mp3_fp 0 in
      ret (Some mp3_fp)
  | Raise e => emit (st_error (audio_error_message e)) ;; ret None
  end.

(** Line 108. *)
Definition speed_rate_of (speed_option : str) : float :=
  if str_eqb speed_option (lit "Slow (0.5x)") then 0.5%float else 1.0%float.

(** The argument of [st.code] on line 137. *)
Definition preview (pdf_text : str) : str :=
  if (len pdf_text >? 1000)%Z
  then Slice.to 1000 pdf_text ++ lit "..."
  else pdf_text.

(** Lines 126 to 162; [pdf_file] is [None] until a file is uploaded. An
    uploaded file and a [BytesIO] are true in a condition whatever they
    hold, a [str] is true when it is not empty. *)
Definition main (os : OsPath.flavour) (pdf_file : option uploaded_file)
    (speed_option : str) (pitch : float) : ui unit :=
  let speed_rate := speed_rate_of speed_option in
  match pdf_file with
  | Some pdf_file =>
      emit (st_spinner (lit "Extracting text from PDF...")) ;;
      pdf_text <- extract_text_from_pdf pdf_file ;;
      match pdf_text with
      | Some ((_ :: _) as pdf_text) =>
          emit (st_success (9989%N :: lit " Text extraction complete!")) ;;
          emit (st_expander (lit "View Extracted Text")) ;;
          emit (st_code (preview pdf_text)) ;;
          emit (st_info (lit
            "Converting text to MP3. This may take a moment for large files..."
          )) ;;
          mp3_file <- convert_text_to_mp3 pdf_text speed_rate pitch ;;
          match mp3_file with
          | Some mp3_file =>
              emit (st_success
                      (127881%N :: lit " Audiobook created successfully!")) ;;
              emit (st_audio mp3_file (lit "audio/mp3")) ;;
              emit (st_download_button
                      (lit "Download MP3 Audiobook")
                      mp3_file
                      (fst (OsPath.splitext os (name pdf_file))
                       ++ lit "_audiobook.mp3")
                      (lit "audio/mp3")
                      (lit "primary"))
          | None => emit (st_error (lit "Could not create the MP3 file."))
          end
      | _ => ret tt
      end
  | None =>
      emit (st_info (lit
        "Please upload a PDF file above to begin the conversion process."))
  end.

End Program.

(** ** The vocabulary of the statements *)

(** A word of [split]: not empty, and free of whitespace. *)
Definition ws_free (w : str) : Prop := Forall (fun c => isspace c = false) w.
Definition word (w : str) : Prop := w <> [] /\ ws_free w.

(** No two neighbours are both the space character. *)
Fixpoint no_adjacent_spaces (s : str) : Prop :=
  match s with
  | a :: ((b :: _) as s') => ~ (a = SP /\ b = SP) /\ no_adjacent_spaces s'
  | _ => True
  end.

(** The shape of every cleaned text. *)
Record normalized (t : str) : Prop := {
  no_line_feed : ~ In LF t;
  no_carriage_return : ~ In CR t;
  no_double_space : ~ exists pre post, t = pre ++ SP :: SP :: post;
  no_leading_space : forall c rest, t = c :: rest -> isspace c = false;
  no_trailing_space : forall pre c, t = pre ++ [c] -> isspace c = false
}.

(** A page whose text can be read. *)
Definition page_of (t : str) : page := Page (Ok t).

(** The request the synthesizer makes for a text and a speed rate. *)
Definition request_of (text : str) (speed_rate : float) : tts_request :=
  TTS text (lit "en") (PrimFloat.ltb speed_rate 1.0%float).

(** The events that reach the speech service. *)
Definition is_synthesis_call (e : event) : bool :=
  match e with
  | gTTS_call _ => true
  | _ => false
  end.

(** The events that present audio: the player and the download button. *)
Definition is_audio_output (e : event) : bool :=
  match e with
  | st_audio _ _ | st_download_button _ _ _ _ _ => true
  | _ => false
  end.

(** The download button of a run for the file [f] and the buffer [fp]. *)
Definition download_of (os : OsPath.flavour) (f : uploaded_file)
    (fp : BytesIO.t) : event :=
  st_download_button (lit "Download MP3 Audiobook") fp
    (fst (OsPath.splitext os (name f)) ++ lit "_audiobook.mp3")
    (lit "audio/mp3") (lit "primary").

(** What is shown up to the call of the synthesizer. *)
Definition extraction_shown (t : str) : list event :=
  [st_spinner (lit "Extracting text from PDF...");
   st_success (9989%N :: lit " Text extraction complete!");
   st_expander (lit "View Extracted Text");
   st_code (preview t);
   st_info (lit
     "Converting text to MP3. This may take a moment for large files...")].

(** The claim that a successful synthesis always gives a non-empty buffer. *)
Definition synthesis_never_empty : Prop :=
  forall (gTTS : tts_request -> result (list byte))
         (text speed_option : str) (pitch : float) (fp : BytesIO.t),
    text <> [] ->
    clean_text text = text ->
    value (convert_text_to_mp3 gTTS text (speed_rate_of speed_option) pitch)
      = Some fp ->
    BytesIO.buf fp <> [].

(** ** Sample inputs *)

(** A document of one page, whose text has a line break and stray spaces. *)
Definition hello_doc : document :=
  [Page (Ok (lit "Hello" ++ LF :: lit " world. "))].

(** An upload named "sample.pdf". *)
Definition hello_pdf : uploaded_file :=
  UploadedFile (lit "sample.pdf") [x25; x50; x44; x46].

(** The page texts of a document of two pages. *)
Definition two_pages : list str := [lit "Hello"; lit "world."].

(** A scanned document: one page, no text layer. *)
Definition image_only_doc : document := [page_of (lit "")].

(** The service answers with the given bytes, whatever the request. *)
Definition service_returning (payload : list byte)
  : tts_request -> result (list byte) :=
  fun _ => Ok payload.

(** The service is out of reach. *)
Definition service_down : tts_request -> result (list byte) :=
  fun _ => Raise (lit "Failed to connect").

(** The first bytes of an MPEG audio frame, as the service sends them. *)
Definition mp3_frame : list byte := [xff; xf3; x44; xc4].

(** A page of 1200 letters. *)
Definition long_text : str := repeat 97%N 1200.

(** ** The vocabulary of the further properties *)

(** Made of whitespace only (the empty string included). *)
Definition all_space (s : str) : Prop := Forall (fun c => isspace c = true) s.

(** The characters of a string that are not whitespace, in order. *)
Definition visible (s : str) : str := filter (fun c => negb (isspace c)) s.

(** The calls to the speech service among the events of a run. *)
Definition synthesis_calls (out : list event) : list event :=
  filter is_synthesis_call out.

(** The three events of a completed run. *)
Definition completion_shown (os : OsPath.flavour) (f : uploaded_file)
    (fp : BytesIO.t) : list event :=
  [st_success (127881%N :: lit " Audiobook created successfully!");
   st_audio fp (lit "audio/mp3");
   download_of os f fp].

(** A path without directory part, for the platform. *)
Definition basename_only (os : OsPath.flavour) (p : str) : Prop :=
  ~ In (OsPath.sep os) p /\
  match OsPath.altsep os with
  | Some a => ~ In a p
  | None => True
  end.

(** A character that separates directories, for the platform. *)
Definition is_sep (os : OsPath.flavour) (c : char) : Prop :=
  c = OsPath.sep os \/ OsPath.altsep os = Some c.

(** A directory part: empty, or ending with a separator. *)
Definition dir_part (os : OsPath.flavour) (dir : str) : Prop :=
  dir = [] \/ exists dir' s, dir = dir' ++ [s] /\ is_sep os s.

(** The last component [base] of a path is [stem], a dot and [e], where [e]
    has no dot and [stem] has a character that is not a dot. *)
Definition has_extension (base stem e : str) : Prop :=
  exists k c stem',
    stem = repeat OsPath.extsep k ++ c :: stem' /\
    c <> OsPath.extsep /\
    ~ In OsPath.extsep e /\
    base = stem ++ OsPath.extsep :: e.

(** The last component [base] of a path is some dots, then characters
    without dot. *)
Definition no_extension (base : str) : Prop :=
  exists k tail,
    base = repeat OsPath.extsep k ++ tail /\ ~ In OsPath.extsep tail.

(** An upload whose name has a directory part and two dots. *)
Definition report_pdf : uploaded_file :=
  UploadedFile (lit "scans.2024/report.v2.pdf") [x25; x50; x44; x46].

(** A document whose second page cannot be read. *)
Definition damaged_doc : document :=
  [page_of (lit "Chapter one"); Page (Raise (lit "bad xref"));
   page_of (lit "Chapter three")].

(** Page texts that hold whitespace only. *)
Definition blank_pages : list str := [lit "  "; [LF; CR]; [160%N; 9%N]].

(** * Properties *)

(** ** Whitespace, words and the cleaned text *)

Arguments isspace : simpl never.

Lemma lit_space : lit " " = [SP].
Proof. reflexivity. Qed.

Lemma isspace_SP : isspace SP = true.
Proof. reflexivity. Qed.

Lemma isspace_LF : isspace LF = true.
Proof. reflexivity. Qed.

Lemma isspace_CR : isspace CR = true.
Proof. reflexivity. Qed.

Lemma join_cons2 (sep w w2 : str) (ws : list str) :
  join sep (w :: w2 :: ws) = w ++ sep ++ join sep (w2 :: ws).
Proof. reflexivity. Qed.

Lemma flush_words (cur : str) : ws_free cur -> Forall word (flush cur).
Proof.
  destruct cur as [|c cur]; simpl; intros H; constructor.
  - split; [discriminate | exact H].
  - constructor.
Qed.

Lemma split_from_words (s : str) :
  forall cur, ws_free cur -> Forall word (split_from cur s).
Proof.
  induction s as [|c s IH]; intros cur Hcur; simpl.
  - now apply flush_words.
  - destruct (isspace c) eqn:Hc.
    + apply Forall_app; split.
      * now apply flush_words.
      * apply IH. constructor.
    + apply IH. apply Forall_app; split; [exact Hcur|].
      constructor; [exact Hc | constructor].
Qed.

Lemma split_words (s : str) : Forall word (split s).
Proof. apply split_from_words. constructor. Qed.

(** Every character of a joined text is a space or is not whitespace. *)
Lemma join_chars (ws : list str) :
  Forall word ws ->
  Forall (fun c => c = SP \/ isspace c = false) (join [SP] ws).
Proof.
  induction ws as [|w ws IH]; intros H; [constructor|].
  inversion H as [|? ? [_ Hw] Hws]; subst.
  assert (Hw' : Forall (fun c => c = SP \/ isspace c = false) w).
  { eapply Forall_impl; [|exact Hw]. intros c Hc. now right. }
  destruct ws as [|w2 ws]; [exact Hw'|].
  rewrite join_cons2. apply Forall_app; split; [exact Hw'|].
  simpl app. constructor; [now left | now apply IH].
Qed.

Lemma join_head (ws : list str) :
  Forall word ws ->
  forall c rest, join [SP] ws = c :: rest -> isspace c = false.
Proof.
  intros H c rest E.
  destruct ws as [|w ws]; [discriminate|].
  inversion H as [|? ? [Hne Hw] _]; subst.
  destruct w as [|a w]; [congruence|].
  inversion Hw; subst.
  destruct ws; simpl in E; inversion E; subst; assumption.
Qed.

Lemma join_nonempty (ws : list str) :
  Forall word ws -> ws <> [] -> join [SP] ws <> [].
Proof.
  intros H Hne E.
  destruct ws as [|w ws]; [congruence|].
  inversion H as [|? ? [Hw _] _]; subst.
  destruct w; [congruence|].
  destruct ws; simpl in E; discriminate.
Qed.

Lemma join_last (ws : list str) :
  Forall word ws ->
  forall pre c, join [SP] ws = pre ++ [c] -> isspace c = false.
Proof.
  induction ws as [|w ws IH]; intros H pre c E.
  - destruct pre; discriminate.
  - inversion H as [|? ? [Hne Hw] Hws]; subst.
    destruct ws as [|w2 ws].
    + simpl in E. subst w.
      apply Forall_app in Hw. destruct Hw as [_ Hc].
      now inversion Hc.
    + rewrite join_cons2 in E.
      destruct (exists_last (join_nonempty Hws ltac:(discriminate)))
        as [pre' [c' E']].
      rewrite E' in E.
      change (w ++ [SP] ++ pre' ++ [c']) with (w ++ (SP :: pre') ++ [c']) in E.
      rewrite app_assoc in E.
      apply app_inj_tail in E. destruct E as [_ <-].
      eapply IH; eauto.
Qed.

Lemma no_adjacent_spaces_word_app (w rest : str) :
  ws_free w -> no_adjacent_spaces rest -> no_adjacent_spaces (w ++ rest).
Proof.
  induction w as [|a w IH]; intros Hw Hrest; [exact Hrest|].
  inversion Hw as [|? ? Ha Hw']; subst.
  specialize (IH Hw' Hrest).
  simpl. destruct (w ++ rest) as [|b t] eqn:E; [exact I|].
  split; [|exact IH].
  intros [-> _]. rewrite isspace_SP in Ha. discriminate.
Qed.

Lemma join_no_adjacent_spaces (ws : list str) :
  Forall word ws -> no_adjacent_spaces (join [SP] ws).
Proof.
  induction ws as [|w ws IH]; intros H; [exact I|].
  inversion H as [|? ? [Hne Hw] Hws]; subst.
  destruct ws as [|w2 ws].
  - simpl. rewrite <- (app_nil_r w).
    now apply no_adjacent_spaces_word_app.
  - rewrite join_cons2. apply no_adjacent_spaces_word_app; [exact Hw|].
    specialize (IH Hws).
    pose proof (join_head Hws) as Hhead.
    remember (join [SP] (w2 :: ws)) as j eqn:E. clear E.
    change ([SP] ++ j) with (SP :: j).
    destruct j as [|b t]; [exact I|].
    split; [|exact IH].
    intros [_ ->].
    specialize (Hhead SP t eq_refl).
    rewrite isspace_SP in Hhead. discriminate.
Qed.

(** The recursive reading of "no two consecutive spaces" is the positional
    one. *)
Lemma no_adjacent_spaces_spec (s : str) :
  no_adjacent_spaces s ->
  ~ exists pre post, s = pre ++ SP :: SP :: post.
Proof.
  intros H [pre [post E]]. subst s.
  induction pre as [|a pre IH].
  - simpl in H. destruct H as [H _]. apply H. now split.
  - apply IH. simpl in H.
    destruct (pre ++ SP :: SP :: post); [exact I | apply H].
Qed.

(** [split] undoes [join]. *)
Lemma split_from_word_app (w : str) :
  ws_free w ->
  forall cur s, split_from cur (w ++ s) = split_from (cur ++ w) s.
Proof.
  induction w as [|a w IH]; intros Hw cur s.
  - now rewrite app_nil_r.
  - inversion Hw as [|? ? Ha Hw']; subst.
    simpl. rewrite Ha, (IH Hw'), <- app_assoc. reflexivity.
Qed.

Lemma flush_word (w : str) : w <> [] -> flush w = [w].
Proof. destruct w; [congruence | reflexivity]. Qed.

Lemma split_join (ws : list str) :
  Forall word ws -> split (join [SP] ws) = ws.
Proof.
  unfold split.
  induction ws as [|w ws IH]; intros H; [reflexivity|].
  inversion H as [|? ? [Hne Hw] Hws]; subst.
  destruct ws as [|w2 ws].
  - simpl. rewrite <- (app_nil_r w) at 1.
    rewrite (split_from_word_app Hw). simpl. now apply flush_word.
  - rewrite join_cons2, (split_from_word_app Hw).
    change ([SP] ++ join [SP] (w2 :: ws)) with (SP :: join [SP] (w2 :: ws)).
    change (split_from ([] ++ w) (SP :: join [SP] (w2 :: ws)))
      with (if isspace SP
            then flush w ++ split_from [] (join [SP] (w2 :: ws))
            else split_from (w ++ [SP]) (join [SP] (w2 :: ws))).
    rewrite isspace_SP, (flush_word Hne), (IH Hws). reflexivity.
Qed.

Lemma lstrip_id (s : str) :
  (forall c rest, s = c :: rest -> isspace c = false) -> lstrip s = s.
Proof.
  destruct s as [|c s]; intros H; [reflexivity|].
  simpl. now rewrite (H c s eq_refl).
Qed.

Lemma rstrip_id (s : str) :
  (forall pre c, s = pre ++ [c] -> isspace c = false) -> rstrip s = s.
Proof.
  intros H. unfold rstrip.
  rewrite lstrip_id; [apply rev_involutive|].
  intros c rest E. apply (H (rev rest) c).
  rewrite <- (rev_involutive s), E. reflexivity.
Qed.

Lemma replace_id (old new : char) (s : str) :
  ~ In old s -> replace old new s = s.
Proof.
  induction s as [|c s IH]; intros H; [reflexivity|].
  simpl. destruct (N.eqb_spec c old) as [->|_].
  - exfalso. apply H. now left.
  - f_equal. apply IH. intros Hin. apply H. now right.
Qed.

Lemma join_not_in (ws : list str) (c : char) :
  Forall word ws -> isspace c = true -> c <> SP -> ~ In c (join [SP] ws).
Proof.
  intros H Hc Hsp Hin.
  pose proof (join_chars H) as Hall.
  rewrite Forall_forall in Hall.
  destruct (Hall c Hin) as [E | E]; congruence.
Qed.

Lemma clean_text_join (ws : list str) :
  Forall word ws -> clean_text (join [SP] ws) = join [SP] ws.
Proof.
  intros H. unfold clean_text, strip. rewrite lit_space.
  rewrite (@replace_id LF SP), (@replace_id CR SP).
  - rewrite (lstrip_id (join_head H)), (rstrip_id (join_last H)).
    now rewrite split_join.
  - apply join_not_in; [exact H | reflexivity | discriminate].
  - apply join_not_in; [exact H | reflexivity | discriminate].
Qed.

Lemma clean_text_words (text : str) :
  exists ws, Forall word ws /\ clean_text text = join [SP] ws.
Proof.
  unfold clean_text. rewrite lit_space.
  eexists. split; [apply split_words | reflexivity].
Qed.

Lemma clean_text_normalized (text : str) : normalized (clean_text text).
Proof.
  destruct (clean_text_words text) as [ws [H ->]].
  constructor.
  - apply join_not_in; [exact H | reflexivity | discriminate].
  - apply join_not_in; [exact H | reflexivity | discriminate].
  - apply no_adjacent_spaces_spec. now apply join_no_adjacent_spaces.
  - now apply join_head.
  - now apply join_last.
Qed.

(** The extractor returns a text only as the cleaned text of the pages. *)
Lemma extract_some (fitz_open : list byte -> result document)
    (pdf_file : uploaded_file) (t : str) :
  value (extract_text_from_pdf fitz_open pdf_file) = Some t ->
  t <> [] /\
  exists doc raw,
    fitz_open (file_read pdf_file) = Ok doc /\
    page_text doc = Ok raw /\
    t = clean_text raw.
Proof.
  unfold extract_text_from_pdf, extract_body. intros H.
  destruct (fitz_open (file_read pdf_file)) as [doc|e] eqn:Ef;
    cbn [result_bind] in H; [|discriminate].
  destruct (page_text doc) as [raw|e] eqn:Ep;
    cbn [result_bind] in H; [|discriminate].
  destruct (clean_text raw) as [|c r] eqn:E; [discriminate|].
  inversion H; subst.
  split; [discriminate|].
  exists doc, raw. repeat split; [exact Ep | now rewrite E].
Qed.

Example extract_hello :
  extract_text_from_pdf (fun _ => Ok hello_doc) hello_pdf
  = (Some (lit "Hello world."), []).
Proof. reflexivity. Qed.

(** C1: whenever the extractor returns a text, the text contains no line
    feed, no carriage return and no two consecutive spaces, and neither its
    first nor its last character is whitespace. *)
Theorem extract_output_normalized
    (fitz_open : list byte -> result document)
    (pdf_file : uploaded_file) (t : str) :
  value (extract_text_from_pdf fitz_open pdf_file) = Some t ->
  ~ In LF t /\
  ~ In CR t /\
  (~ exists pre post, t = pre ++ SP :: SP :: post) /\
  (forall c rest, t = c :: rest -> isspace c = false) /\
  (forall pre c, t = pre ++ [c] -> isspace c = false).
Proof.
  intros H.
  destruct (extract_some _ _ H) as [_ [doc [raw [_ [_ ->]]]]].
  destruct (clean_text_normalized raw) as [H1 H2 H3 H4 H5].
  repeat split; assumption.
Qed.

Lemma extract_output_normalized_witness :
  let t := lit "Hello world." in
  ~ In LF t /\
  ~ In CR t /\
  (~ exists pre post, t = pre ++ SP :: SP :: post) /\
  (forall c rest, t = c :: rest -> isspace c = false) /\
  (forall pre c, t = pre ++ [c] -> isspace c = false).
Proof.
  apply (@extract_output_normalized (fun _ => Ok hello_doc) hello_pdf).
  reflexivity.
Defined.

(** C10: cleaning is idempotent: a text that is already the output of the
    cleaning step is returned unchanged. *)
Theorem clean_text_idempotent (text : str) :
  clean_text (clean_text text) = clean_text text.
Proof.
  destruct (clean_text_words text) as [ws [H ->]].
  now apply clean_text_join.
Qed.

(** In particular the cleaning step leaves every extractor result alone. *)
Lemma clean_text_extract (fitz_open : list byte -> result document)
    (pdf_file : uploaded_file) (t : str) :
  value (extract_text_from_pdf fitz_open pdf_file) = Some t ->
  clean_text t = t.
Proof.
  intros H.
  destruct (extract_some _ _ H) as [_ [doc [raw [_ [_ ->]]]]].
  destruct (clean_text_words raw) as [ws [Hws ->]].
  now apply clean_text_join.
Qed.

(** ** The page loop *)

Lemma read_pages_all (rest : list str) :
  forall (pre : list str) (text : str),
    read_pages (map page_of (pre ++ rest))
               (seq (length pre) (length rest)) text
    = Ok (text ++ concat (map (fun t => t ++ lit " ") rest)).
Proof.
  induction rest as [|t rest IH]; intros pre text.
  - simpl. now rewrite app_nil_r.
  - cbn [length seq read_pages]. unfold load_page.
    rewrite nth_error_map, nth_error_app2, Nat.sub_diag by lia.
    cbn [nth_error option_map result_bind page_of get_text].
    replace (pre ++ t :: rest) with ((pre ++ [t]) ++ rest)
      by (rewrite <- app_assoc; reflexivity).
    replace (S (length pre)) with (length (pre ++ [t]))
      by (rewrite length_app; simpl; lia).
    rewrite IH. cbn [map concat]. now rewrite <- app_assoc.
Qed.

(** C6: when the document opens and every page gives its text, the text
    before cleaning is the page texts in page order, each followed by one
    space, and the extractor goes on to clean exactly that text. *)
Theorem pages_read_in_order
    (fitz_open : list byte -> result document)
    (pdf_file : uploaded_file) (texts : list str) :
  fitz_open (file_read pdf_file) = Ok (map page_of texts) ->
  page_text (map page_of texts)
    = Ok (concat (map (fun t => t ++ lit " ") texts)) /\
  extract_body fitz_open pdf_file
    = Ok (clean_text (concat (map (fun t => t ++ lit " ") texts))).
Proof.
  intros Hopen.
  assert (Hp : page_text (map page_of texts)
               = Ok (concat (map (fun t => t ++ lit " ") texts))).
  { unfold page_text, range. rewrite length_map.
    exact (read_pages_all texts [] (lit "")). }
  split; [exact Hp|].
  unfold extract_body. rewrite Hopen. cbn [result_bind].
  rewrite Hp. reflexivity.
Qed.

Lemma pages_read_in_order_witness :
  page_text (map page_of two_pages) = Ok (lit "Hello world. ") /\
  extract_body (fun _ => Ok (map page_of two_pages)) hello_pdf
    = Ok (lit "Hello world.").
Proof.
  exact (@pages_read_in_order (fun _ => Ok (map page_of two_pages))
           hello_pdf two_pages eq_refl).
Defined.

(** A page that cannot be read stops the loop with its error. *)
Example page_error :
  page_text [page_of (lit "a"); Page (Raise (lit "broken")); page_of (lit "b")]
  = Raise (lit "broken").
Proof. reflexivity. Qed.

(** ** The outcomes of the extractor *)

Lemma extract_unfold (fitz_open : list byte -> result document)
    (pdf_file : uploaded_file) :
  extract_text_from_pdf fitz_open pdf_file =
  match extract_body fitz_open pdf_file with
  | Ok [] => (None, [st_error no_text_message])
  | Ok (c :: t) => (Some (c :: t), [])
  | Raise e => (None, [st_error (pdf_error_message e)])
  end.
Proof.
  unfold extract_text_from_pdf.
  destruct (extract_body fitz_open pdf_file) as [[|c t]|e]; reflexivity.
Qed.

Lemma extract_body_raises (fitz_open : list byte -> result document)
    (pdf_file : uploaded_file) (e : str) :
  extract_body fitz_open pdf_file = Raise e <->
  fitz_open (file_read pdf_file) = Raise e \/
  exists doc, fitz_open (file_read pdf_file) = Ok doc /\
              page_text doc = Raise e.
Proof.
  unfold extract_body.
  destruct (fitz_open (file_read pdf_file)) as [doc|e1]; cbn [result_bind].
  - destruct (page_text doc) as [raw|e2] eqn:Ep; cbn [result_bind].
    + split; [discriminate|].
      intros [H | [d [Hd Hr]]]; [discriminate|].
      inversion Hd; subst. rewrite Hr in Ep. discriminate.
    + split.
      * intros H. inversion H; subst. right. exists doc. now split.
      * intros [H | [d [Hd Hr]]]; [discriminate|].
        inversion Hd; subst. rewrite Hr in Ep. now inversion Ep.
  - split.
    + intros H. inversion H; subst. now left.
    + intros [H | [d [Hd _]]]; [|discriminate].
      inversion H; subst. reflexivity.
Qed.

Lemma messages_distinct (e : str) : pdf_error_message e <> no_text_message.
Proof. unfold pdf_error_message. discriminate. Qed.

(** C4: the extractor returns nothing in exactly two cases, each with its
    own message: an exception while the document is opened or read (reported
    with the exception's text), and a document that reads but whose cleaned
    text is empty (reported as no readable text). Every text it does return
    is non-empty. *)
Theorem extract_outcomes (fitz_open : list byte -> result document)
    (pdf_file : uploaded_file) :
  let run := extract_text_from_pdf fitz_open pdf_file in
  (value run = None <->
     (exists e, extract_body fitz_open pdf_file = Raise e) \/
     extract_body fitz_open pdf_file = Ok []) /\
  (forall e, extract_body fitz_open pdf_file = Raise e ->
     run = (None, [st_error (pdf_error_message e)])) /\
  (extract_body fitz_open pdf_file = Ok [] ->
     run = (None, [st_error no_text_message])) /\
  (forall e, pdf_error_message e <> no_text_message) /\
  (forall t, value run = Some t ->
     t <> [] /\ extract_body fitz_open pdf_file = Ok t /\ shown run = []).
Proof.
  cbv zeta. rewrite extract_unfold.
  destruct (extract_body fitz_open pdf_file) as [[|c t]|e] eqn:E;
    cbn [value shown fst snd];
    (split; [|split; [|split; [|split]]]);
    try apply messages_distinct; try discriminate.
  - split; [intros _; now right | reflexivity].
  - reflexivity.
  - split; [discriminate | intros [[e He] | H]; discriminate].
  - intros t' H. inversion H; subst.
    split; [discriminate | split; reflexivity].
  - split; [intros _; left; now exists e | reflexivity].
  - intros e' He'. inversion He'; subst. reflexivity.
Qed.

Lemma extract_outcomes_witness :
  extract_text_from_pdf (fun _ => Raise (lit "cannot open broken document"))
                        hello_pdf
  = (None, [st_error (lit
      "An error occurred during PDF processing: cannot open broken document")])
  /\
  extract_text_from_pdf (fun _ => Ok image_only_doc) hello_pdf
  = (None, [st_error (lit
      "Error: Could not extract any readable text from the PDF.")]).
Proof.
  split.
  - exact (proj1 (proj2 (@extract_outcomes
             (fun _ => Raise (lit "cannot open broken document")) hello_pdf))
             (lit "cannot open broken document") eq_refl).
  - exact (proj1 (proj2 (proj2 (@extract_outcomes
             (fun _ => Ok image_only_doc) hello_pdf))) eq_refl).
Defined.

(** ** The synthesizer *)

Section Synthesizer.

Variable gTTS : tts_request -> result (list byte).

Lemma write_new (payload : list byte) :
  BytesIO.write BytesIO.new payload
  = BytesIO.mk payload (length payload).
Proof.
  destruct payload as [|b payload]; [reflexivity|].
  unfold BytesIO.write, BytesIO.new. cbn [BytesIO.buf BytesIO.pos].
  rewrite skipn_nil. cbn [firstn Nat.sub repeat app Nat.add].
  now rewrite app_nil_r.
Qed.

Lemma convert_unfold (text : str) (speed_rate pitch : float) :
  convert_text_to_mp3 gTTS text speed_rate pitch =
  match gTTS (request_of text speed_rate) with
  | Ok payload =>
      (Some (BytesIO.mk payload 0), [gTTS_call (request_of text speed_rate)])
  | Raise e =>
      (None, [gTTS_call (request_of text speed_rate);
              st_error (audio_error_message e)])
  end.
Proof.
  unfold convert_text_to_mp3, request_of.
  destruct (gTTS _) as [payload|e]; [|reflexivity].
  rewrite write_new. reflexivity.
Qed.

End Synthesizer.

(** C2: the pitch does not reach the synthesizer's output: with the text,
    the speed and the service's answers fixed, any two pitch values give the
    same result, for the synthesizer and for the whole run. *)
Theorem pitch_is_inert
    (fitz_open : list byte -> result document)
    (gTTS : tts_request -> result (list byte))
    (os : OsPath.flavour) (pdf_file : option uploaded_file)
    (text speed_option : str) (speed_rate pitch1 pitch2 : float) :
  convert_text_to_mp3 gTTS text speed_rate pitch1
  = convert_text_to_mp3 gTTS text speed_rate pitch2 /\
  convert_text_to_mp3 gTTS text (speed_rate_of speed_option) pitch1
  = convert_text_to_mp3 gTTS text (speed_rate_of speed_option) pitch2 /\
  main fitz_open gTTS os pdf_file speed_option pitch1
  = main fitz_open gTTS os pdf_file speed_option pitch2.
Proof.
  assert (H : forall t r,
             convert_text_to_mp3 gTTS t r pitch1
             = convert_text_to_mp3 gTTS t r pitch2).
  { intros t r. now rewrite !convert_unfold. }
  split; [apply H | split; [apply H|]].
  unfold main. destruct pdf_file as [f|]; [|reflexivity].
  destruct (extract_text_from_pdf fitz_open f) as [[[|c t]|] out];
    cbn [bind emit ret]; try reflexivity.
Qed.

Lemma synthesis_can_be_empty : ~ synthesis_never_empty.
Proof.
  intros H.
  apply (H (service_returning []) (lit "Hello world.") (lit "Normal (1.0x)")
           1.0%float (BytesIO.mk [] 0)).
  - discriminate.
  - reflexivity.
  - reflexivity.
  - reflexivity.
Qed.

(** C7, as the code has it: a successful synthesis returns a buffer that
    holds exactly the bytes the service wrote for the request, positioned
    at offset 0, so that reading it gives those bytes from the first one.
    The bytes themselves are not examined. *)
Theorem synthesis_buffer
    (gTTS : tts_request -> result (list byte))
    (text : str) (speed_rate pitch : float) (fp : BytesIO.t) :
  value (convert_text_to_mp3 gTTS text speed_rate pitch) = Some fp ->
  exists payload,
    gTTS (TTS text (lit "en") (PrimFloat.ltb speed_rate 1.0%float))
      = Ok payload /\
    BytesIO.buf fp = payload /\
    BytesIO.pos fp = 0 /\
    BytesIO.read fp = payload.
Proof.
  rewrite convert_unfold. unfold request_of.
  destruct (gTTS _) as [payload|e]; cbn [value fst]; [|discriminate].
  intros H. inversion H; subst.
  exists payload. repeat split.
Qed.

Lemma synthesis_buffer_witness :
  exists payload,
    service_returning mp3_frame
      (TTS (lit "Hello world.") (lit "en") (PrimFloat.ltb 1.0%float 1.0%float))
      = Ok payload /\
    BytesIO.buf (BytesIO.mk mp3_frame 0) = payload /\
    BytesIO.pos (BytesIO.mk mp3_frame 0) = 0 /\
    BytesIO.read (BytesIO.mk mp3_frame 0) = payload.
Proof.
  exact (@synthesis_buffer (service_returning mp3_frame) (lit "Hello world.")
           1.0%float 1.0%float (BytesIO.mk mp3_frame 0) eq_refl).
Defined.

(** ** The run as a whole *)

Section Run.

Variable fitz_open : list byte -> result document.
Variable gTTS : tts_request -> result (list byte).
Variable os : OsPath.flavour.

Lemma main_extraction_failed (f : uploaded_file) (speed_option : str)
    (pitch : float) :
  value (extract_text_from_pdf fitz_open f) = None ->
  shown (main fitz_open gTTS os (Some f) speed_option pitch)
  = st_spinner (lit "Extracting text from PDF...")
    :: shown (extract_text_from_pdf fitz_open f) /\
  exists msg, shown (extract_text_from_pdf fitz_open f) = [st_error msg].
Proof.
  unfold main. rewrite extract_unfold.
  destruct (extract_body fitz_open f) as [[|c t]|e];
    cbn [value shown fst snd bind emit ret app]; intros H;
    try discriminate; (split; [reflexivity | eexists; reflexivity]).
Qed.

Lemma main_extracted (f : uploaded_file) (speed_option : str)
    (pitch : float) (t : str) :
  value (extract_text_from_pdf fitz_open f) = Some t ->
  shown (main fitz_open gTTS os (Some f) speed_option pitch)
  = extraction_shown t
    ++ shown (convert_text_to_mp3 gTTS t (speed_rate_of speed_option) pitch)
    ++ match value (convert_text_to_mp3 gTTS t (speed_rate_of speed_option)
                      pitch) with
       | Some fp =>
           [st_success (127881%N :: lit " Audiobook created successfully!");
            st_audio fp (lit "audio/mp3");
            download_of os f fp]
       | None => [st_error (lit "Could not create the MP3 file.")]
       end.
Proof.
  unfold main. rewrite extract_unfold.
  destruct (extract_body fitz_open f) as [[|c r]|e];
    cbn [value fst]; intros H; try discriminate.
  inversion H; subst t. clear H.
  cbn [bind emit ret]. rewrite !convert_unfold.
  destruct (gTTS _) as [payload|e]; reflexivity.
Qed.

End Run.

(** C5: a failed stage ends the run. When the extractor returns nothing,
    the run shows the spinner and the extractor's one error message: the
    service is not called and no player or download button is shown. When
    the synthesizer returns nothing, no player or download button is shown
    and the run ends with an error message. *)
Theorem failure_short_circuits
    (fitz_open : list byte -> result document)
    (gTTS : tts_request -> result (list byte))
    (os : OsPath.flavour) (f : uploaded_file)
    (speed_option : str) (pitch : float) :
  let out := shown (main fitz_open gTTS os (Some f) speed_option pitch) in
  (value (extract_text_from_pdf fitz_open f) = None ->
     Forall (fun e => is_synthesis_call e = false) out /\
     Forall (fun e => is_audio_output e = false) out /\
     exists msg, out = [st_spinner (lit "Extracting text from PDF...");
                        st_error msg]) /\
  (forall t,
     value (extract_text_from_pdf fitz_open f) = Some t ->
     value (convert_text_to_mp3 gTTS t (speed_rate_of speed_option) pitch)
       = None ->
     Forall (fun e => is_audio_output e = false) out /\
     exists before,
       out = before ++ [st_error (lit "Could not create the MP3 file.")]).
Proof.
  cbv zeta. split.
  - intros H.
    destruct (@main_extraction_failed fitz_open gTTS os f speed_option
                pitch H)
      as [E [msg Emsg]].
    rewrite E, Emsg.
    split; [|split].
    + repeat constructor.
    + repeat constructor.
    + now exists msg.
  - intros t Ht Hc.
    rewrite (@main_extracted fitz_open gTTS os f speed_option pitch t Ht).
    rewrite convert_unfold in Hc |- *.
    destruct (gTTS _) as [payload|e]; cbn [value shown fst snd] in *;
      [discriminate|].
    split.
    + repeat constructor.
    + eexists. rewrite app_assoc. reflexivity.
Qed.

Lemma failure_short_circuits_witness :
  (let out := shown (main (fun _ => Ok image_only_doc) service_down
                          OsPath.posix (Some hello_pdf)
                          (lit "Normal (1.0x)") 1.0%float) in
   Forall (fun e => is_synthesis_call e = false) out /\
   Forall (fun e => is_audio_output e = false) out /\
   exists msg, out = [st_spinner (lit "Extracting text from PDF...");
                      st_error msg]) /\
  (let out := shown (main (fun _ => Ok hello_doc) service_down
                          OsPath.posix (Some hello_pdf)
                          (lit "Normal (1.0x)") 1.0%float) in
   Forall (fun e => is_audio_output e = false) out /\
   exists before,
     out = before ++ [st_error (lit "Could not create the MP3 file.")]).
Proof.
  split.
  - exact (proj1 (@failure_short_circuits (fun _ => Ok image_only_doc)
             service_down OsPath.posix hello_pdf (lit "Normal (1.0x)")
             1.0%float) eq_refl).
  - exact (proj2 (@failure_short_circuits (fun _ => Ok hello_doc)
             service_down OsPath.posix hello_pdf (lit "Normal (1.0x)")
             1.0%float) (lit "Hello world.") eq_refl eq_refl).
Defined.

(** ** [os.path.splitext] *)

Module OsPathFacts.

Import OsPath.

Lemma rfind_from_absent (c : char) (s : str) :
  forall i, ~ In c s -> rfind_from i s c = (-1)%Z.
Proof.
  induction s as [|x s IH]; intros i H; [reflexivity|].
  cbn [rfind_from]. rewrite IH by (intros Hin; apply H; now right).
  cbn [Z.leb Z.compare].
  destruct (N.eqb_spec x c) as [->|_]; [|reflexivity].
  exfalso. apply H. now left.
Qed.

Lemma rfind_from_last (c : char) (pre post : str) :
  ~ In c post ->
  forall i, (0 <= i)%Z ->
    rfind_from i (pre ++ c :: post) c = (i + Z.of_nat (length pre))%Z.
Proof.
  intros Hpost. induction pre as [|x pre IH]; intros i Hi.
  - cbn [app rfind_from length]. rewrite rfind_from_absent by exact Hpost.
    cbn [Z.leb Z.compare]. rewrite N.eqb_refl. cbn [Z.of_nat]. lia.
  - cbn [app rfind_from]. rewrite IH by lia.
    destruct (Z.leb_spec 0 (i + 1 + Z.of_nat (length pre))) as [_|Hneg];
      [|lia].
    cbn [length]. lia.
Qed.

Lemma last_occurrence (c : char) (s : str) :
  ~ In c s \/ exists pre post, s = pre ++ c :: post /\ ~ In c post.
Proof.
  induction s as [|x s IH]; [now left|].
  destruct IH as [Hno | [pre [post [-> Hpost]]]].
  - destruct (N.eq_dec x c) as [->|Hne].
    + right. exists [], s. now split.
    + left. intros [H|H]; [congruence | now apply Hno].
  - right. exists (x :: pre), post. now split.
Qed.

Lemma rfind_lower_bound (s : str) (c : char) : (-1 <= rfind s c)%Z.
Proof.
  unfold rfind.
  destruct (last_occurrence c s) as [H | [pre [post [-> H]]]].
  - rewrite rfind_from_absent by exact H. lia.
  - rewrite rfind_from_last by (exact H || lia). lia.
Qed.

Lemma norm_of_nat (l n : nat) : Slice.norm l (Z.of_nat n) = n.
Proof.
  unfold Slice.norm.
  destruct (Z.ltb_spec (Z.of_nat n) 0) as [H|_]; [lia|].
  apply Nat2Z.id.
Qed.

Lemma skip_leading_dots_cases (fuel : nat) (p : str) (dotIndex : Z) :
  forall filenameIndex,
    skip_leading_dots fuel p filenameIndex dotIndex = (p, []) \/
    skip_leading_dots fuel p filenameIndex dotIndex
    = (Slice.to dotIndex p, Slice.from dotIndex p).
Proof.
  induction fuel as [|fuel IH]; intros i; cbn [skip_leading_dots].
  - now left.
  - destruct (i <? dotIndex)%Z; [|now left].
    destruct (negb _); [now right | apply IH].
Qed.

(** The fuel [_splitext] gives is enough: more fuel changes nothing. *)
Lemma skip_leading_dots_fuel (fuel : nat) (p : str) (dotIndex : Z) :
  forall filenameIndex extra,
    Z.to_nat (dotIndex - filenameIndex) <= fuel ->
    skip_leading_dots (fuel + extra) p filenameIndex dotIndex
    = skip_leading_dots fuel p filenameIndex dotIndex.
Proof.
  induction fuel as [|fuel IH]; intros i extra Hfuel.
  - destruct extra as [|extra]; [reflexivity|].
    cbn [Nat.add skip_leading_dots].
    destruct (Z.ltb_spec i dotIndex) as [Hlt|_]; [lia | reflexivity].
  - cbn [Nat.add skip_leading_dots].
    destruct (Z.ltb_spec i dotIndex) as [Hlt|_]; [|reflexivity].
    destruct (negb _); [reflexivity|].
    apply IH. lia.
Qed.

Lemma _splitext_cases (p : str) (s : char) (a : option char) (x : char) :
  _splitext p s a x = (p, []) \/
  exists pre post,
    p = pre ++ x :: post /\ ~ In x post /\
    _splitext p s a x = (pre, x :: post).
Proof.
  unfold _splitext.
  set (sepIndex := match a with
                   | Some a0 => Z.max (rfind p s) (rfind p a0)
                   | None => rfind p s
                   end).
  assert (Hsep : (-1 <= sepIndex)%Z).
  { subst sepIndex. pose proof (rfind_lower_bound p s).
    destruct a; [pose proof (rfind_lower_bound p c)|]; lia. }
  destruct (Z.gtb_spec (rfind p x) sepIndex) as [Hgt|_]; [|now left].
  destruct (skip_leading_dots_cases
              (Z.to_nat (rfind p x - (sepIndex + 1))) p (rfind p x)
              (sepIndex + 1)) as [E|E]; rewrite E; [now left|].
  right.
  destruct (last_occurrence x p) as [Hno | [pre [post [Hp Hpost]]]].
  - unfold rfind in Hgt. rewrite rfind_from_absent in Hgt by exact Hno. lia.
  - exists pre, post. split; [exact Hp | split; [exact Hpost|]].
    subst p. unfold rfind. rewrite rfind_from_last by (exact Hpost || lia).
    unfold Slice.to, Slice.from. cbn [Z.add]. rewrite norm_of_nat.
    rewrite firstn_app, Nat.sub_diag, firstn_all, firstn_O, app_nil_r.
    rewrite skipn_app, Nat.sub_diag, skipn_all. reflexivity.
Qed.

(** The two parts make up the path again. *)
Lemma splitext_recompose (os : flavour) (p : str) :
  fst (splitext os p) ++ snd (splitext os p) = p.
Proof.
  unfold splitext.
  destruct (_splitext_cases p (sep os) (altsep os) extsep)
    as [E | [pre [post [Hp [_ E]]]]]; rewrite E; cbn [fst snd].
  - apply app_nil_r.
  - now rewrite Hp.
Qed.

(** The extension is empty, or one dot followed by characters without dot. *)
Lemma splitext_extension (os : flavour) (p : str) :
  snd (splitext os p) = [] \/
  exists e, snd (splitext os p) = extsep :: e /\ ~ In extsep e.
Proof.
  unfold splitext.
  destruct (_splitext_cases p (sep os) (altsep os) extsep)
    as [E | [pre [post [Hp [Hpost E]]]]]; rewrite E; cbn [fst snd].
  - now left.
  - right. now exists post.
Qed.

Example splitext_sample :
  splitext posix (lit "sample.pdf") = (lit "sample", lit ".pdf").
Proof. reflexivity. Qed.

Example splitext_two_dots :
  splitext posix (lit "report.v2.pdf") = (lit "report.v2", lit ".pdf").
Proof. reflexivity. Qed.

Example splitext_hidden :
  splitext posix (lit ".pdf") = (lit ".pdf", lit "").
Proof. reflexivity. Qed.

Example splitext_dotted_directory :
  splitext nt (lit "scans.old/book") = (lit "scans.old/book", lit "").
Proof. reflexivity. Qed.

End OsPathFacts.

(** ** The preview of a successful run *)

Lemma preview_short (t : str) : (len t <= 1000)%Z -> preview t = t.
Proof.
  intros H. unfold preview.
  destruct (Z.gtb_spec (len t) 1000) as [Hgt|_]; [lia | reflexivity].
Qed.

Lemma preview_long (t : str) :
  (1000 < len t)%Z ->
  preview t = firstn 1000 t ++ lit "..." /\
  len (firstn 1000 t) = 1000%Z.
Proof.
  intros H. unfold preview.
  destruct (Z.gtb_spec (len t) 1000) as [_|Hle]; [|lia].
  split; [reflexivity|].
  unfold len in *. rewrite length_firstn. lia.
Qed.

(** C9: after a successful extraction the run shows the preview; it is the
    whole text when the text has at most 1000 characters, and otherwise the
    first 1000 characters followed by "...". *)
Theorem preview_shown
    (fitz_open : list byte -> result document)
    (gTTS : tts_request -> result (list byte))
    (os : OsPath.flavour) (f : uploaded_file)
    (speed_option : str) (pitch : float) (t : str) :
  value (extract_text_from_pdf fitz_open f) = Some t ->
  In (st_code (preview t))
     (shown (main fitz_open gTTS os (Some f) speed_option pitch)) /\
  ((len t <= 1000)%Z -> preview t = t) /\
  ((1000 < len t)%Z ->
   preview t = firstn 1000 t ++ lit "..." /\
   len (firstn 1000 t) = 1000%Z).
Proof.
  intros Ht. split; [|split].
  - rewrite (@main_extracted fitz_open gTTS os f speed_option pitch t Ht).
    apply in_or_app. left. unfold extraction_shown.
    right. right. right. left. reflexivity.
  - apply preview_short.
  - apply preview_long.
Qed.

Lemma preview_shown_witness :
  preview (lit "Hello world.") = lit "Hello world." /\
  preview long_text = repeat 97%N 1000 ++ lit "...".
Proof.
  split.
  - refine (proj1 (proj2 (@preview_shown (fun _ => Ok hello_doc)
              (service_returning mp3_frame) OsPath.posix hello_pdf
              (lit "Normal (1.0x)") 1.0%float (lit "Hello world.")
              eq_refl)) _).
    vm_compute. discriminate.
  - refine (proj1 (proj2 (proj2 (@preview_shown
              (fun _ => Ok [page_of long_text])
              (service_returning mp3_frame) OsPath.posix hello_pdf
              (lit "Normal (1.0x)") 1.0%float long_text _)) _)).
    + vm_compute. reflexivity.
    + vm_compute. reflexivity.
Defined.

(** * Further properties *)

(** ** The cleaning step, through its words *)

Lemma flush_nil : flush [] = [].
Proof. reflexivity. Qed.

Lemma split_from_all_space (s : str) :
  all_space s -> forall cur, split_from cur s = flush cur.
Proof.
  induction s as [|c s IH]; intros H cur; [reflexivity|].
  inversion H as [|? ? Hc Hs]; subst.
  cbn [split_from]. rewrite Hc, (IH Hs), flush_nil. apply app_nil_r.
Qed.

Lemma split_from_app_space (s tail : str) :
  all_space tail ->
  forall cur, split_from cur (s ++ tail) = split_from cur s.
Proof.
  intros Htail. induction s as [|c s IH]; intros cur.
  - cbn [app split_from]. now apply split_from_all_space.
  - cbn [app split_from]. now rewrite !IH.
Qed.

Lemma split_from_map (f : char -> char) :
  (forall c, isspace c = false -> f c = c) ->
  (forall c, isspace c = true -> isspace (f c) = true) ->
  forall s cur, split_from cur (map f s) = split_from cur s.
Proof.
  intros Hkeep Hspace. induction s as [|c s IH]; intros cur; [reflexivity|].
  cbn [map split_from]. destruct (isspace c) eqn:Hc.
  - now rewrite (Hspace c Hc), IH.
  - now rewrite (Hkeep c Hc), Hc, IH.
Qed.

Lemma split_from_replace (old : char) (s cur : str) :
  isspace old = true ->
  split_from cur (replace old SP s) = split_from cur s.
Proof.
  intros Hold. unfold replace. apply split_from_map.
  - intros c Hc. destruct (N.eqb_spec c old) as [->|_]; [congruence|].
    reflexivity.
  - intros c Hc. destruct (N.eqb_spec c old); [reflexivity | exact Hc].
Qed.

Lemma lstrip_decompose (s : str) :
  exists ws, all_space ws /\ s = ws ++ lstrip s.
Proof.
  induction s as [|c s [ws [Hws E]]].
  - exists []. split; [constructor | reflexivity].
  - cbn [lstrip]. destruct (isspace c) eqn:Hc.
    + exists (c :: ws). split; [now constructor|].
      cbn [app]. now rewrite <- E.
    + exists []. split; [constructor | reflexivity].
Qed.

Lemma rstrip_decompose (s : str) :
  exists ws, all_space ws /\ s = rstrip s ++ ws.
Proof.
  destruct (lstrip_decompose (rev s)) as [ws [Hws E]].
  exists (rev ws). split.
  - now apply Forall_rev.
  - unfold rstrip. rewrite <- rev_app_distr, <- E.
    symmetry. apply rev_involutive.
Qed.

Lemma split_lstrip (s : str) : split (lstrip s) = split s.
Proof.
  unfold split.
  destruct (lstrip_decompose s) as [ws [Hws E]].
  rewrite E at 2. clear E.
  induction Hws as [|c ws Hc _ IH]; [reflexivity|].
  cbn [app split_from]. now rewrite Hc, flush_nil.
Qed.

Lemma split_rstrip (s : str) : split (rstrip s) = split s.
Proof.
  unfold split.
  destruct (rstrip_decompose s) as [ws [Hws E]].
  rewrite E at 2. now rewrite split_from_app_space.
Qed.

(** The cleaned text is the words of the raw text, joined by one space. *)
Lemma clean_text_eq (text : str) : clean_text text = join [SP] (split text).
Proof.
  unfold clean_text, strip. rewrite lit_space.
  rewrite split_rstrip, split_lstrip. unfold split.
  now rewrite !split_from_replace by reflexivity.
Qed.

(** X1: the two [replace] calls and [strip] add nothing to [split] and
    [join]: the cleaned text is the words of the raw text joined by single
    spaces, and it has the same words as the raw text. *)
Theorem clean_text_is_words (text : str) :
  clean_text text = join [SP] (split text) /\
  split (clean_text text) = split text.
Proof.
  split; [apply clean_text_eq|].
  rewrite clean_text_eq. apply split_join, split_words.
Qed.

Lemma visible_app (a b : str) : visible (a ++ b) = visible a ++ visible b.
Proof. apply filter_app. Qed.

Lemma visible_join (ws : list str) :
  visible (join [SP] ws) = concat (map visible ws).
Proof.
  induction ws as [|w ws IH]; [reflexivity|].
  destruct ws as [|w2 ws].
  - cbn [join map concat]. now rewrite app_nil_r.
  - rewrite join_cons2, !visible_app, IH. reflexivity.
Qed.

Lemma visible_flush (cur : str) :
  concat (map visible (flush cur)) = visible cur.
Proof.
  destruct cur; [reflexivity|].
  cbn [flush map concat]. apply app_nil_r.
Qed.

Lemma visible_cons_space (c : char) (s : str) :
  isspace c = true -> visible (c :: s) = visible s.
Proof. intros H. unfold visible. cbn [filter]. now rewrite H. Qed.

Lemma visible_cons_other (c : char) (s : str) :
  isspace c = false -> visible (c :: s) = c :: visible s.
Proof. intros H. unfold visible. cbn [filter]. now rewrite H. Qed.

Lemma visible_split_from (s : str) :
  forall cur,
    concat (map visible (split_from cur s)) = visible cur ++ visible s.
Proof.
  induction s as [|c s IH]; intros cur.
  - cbn [split_from]. rewrite visible_flush. symmetry. apply app_nil_r.
  - cbn [split_from]. destruct (isspace c) eqn:Hc.
    + rewrite map_app, concat_app, visible_flush, IH.
      now rewrite (@visible_cons_space c s Hc).
    + rewrite IH, visible_app, <- app_assoc. f_equal.
      now rewrite (@visible_cons_other c s Hc), (@visible_cons_other c [] Hc).
Qed.

Lemma visible_clean_text (text : str) :
  visible (clean_text text) = visible text.
Proof.
  rewrite clean_text_eq, visible_join. unfold split.
  now rewrite visible_split_from.
Qed.

Lemma visible_nil_all_space (s : str) : visible s = [] <-> all_space s.
Proof.
  induction s as [|c s IH]; [split; [constructor | reflexivity]|].
  destruct (isspace c) eqn:Hc.
  - rewrite (@visible_cons_space c s Hc), IH. split.
    + intros H. now constructor.
    + intros H. now inversion H.
  - rewrite (@visible_cons_other c s Hc). split; [discriminate|].
    intros H. inversion H; congruence.
Qed.

Lemma clean_text_empty (text : str) :
  clean_text text = [] <-> all_space text.
Proof.
  split.
  - intros H. apply visible_nil_all_space.
    now rewrite <- visible_clean_text, H.
  - intros H. rewrite clean_text_eq. unfold split.
    now rewrite (split_from_all_space H).
Qed.

(** X2: cleaning keeps every character that is not whitespace, in the
    order of the raw text, and adds none. *)
Theorem clean_text_keeps_visible (text : str) :
  visible (clean_text text) = visible text /\
  (forall c, isspace c = false -> (In c (clean_text text) <-> In c text)).
Proof.
  split; [apply visible_clean_text|].
  intros c Hc.
  assert (Hin : forall s, In c (visible s) <-> In c s).
  { intros s. unfold visible. rewrite filter_In.
    split; [now intros [H _] | intros H; split; [exact H | now rewrite Hc]]. }
  now rewrite <- (Hin (clean_text text)), <- (Hin text), visible_clean_text.
Qed.

Lemma length_join_split_from (s : str) :
  forall cur,
    length (join [SP] (split_from cur s)) <= length cur + length s.
Proof.
  induction s as [|c s IH]; intros cur.
  - cbn [split_from]. destruct cur; cbn [flush join length]; lia.
  - cbn [split_from length]. destruct (isspace c).
    + specialize (IH []). cbn [length] in IH.
      destruct cur as [|a cur]; [cbn [flush app]; lia|].
      cbn [flush app].
      destruct (split_from [] s) as [|w ws].
      * cbn [join]. lia.
      * rewrite join_cons2, !length_app. cbn [length] in *. lia.
    + specialize (IH (cur ++ [c])). rewrite length_app in IH.
      cbn [length] in IH. lia.
Qed.

(** X3: the cleaned text is never longer than the raw text. *)
Theorem clean_text_not_longer (text : str) :
  length (clean_text text) <= length text.
Proof.
  rewrite clean_text_eq. unfold split.
  exact (length_join_split_from text []).
Qed.

(** ** The pages of a document *)

Lemma split_from_space_app (s rest : str) :
  forall cur,
    split_from cur (s ++ SP :: rest) = split_from cur s ++ split rest.
Proof.
  induction s as [|c s IH]; intros cur.
  - cbn [app split_from]. now rewrite isspace_SP.
  - cbn [app split_from]. destruct (isspace c).
    + now rewrite IH, app_assoc.
    + apply IH.
Qed.

Lemma split_pages (texts : list str) :
  split (concat (map (fun t => t ++ lit " ") texts))
  = concat (map split texts).
Proof.
  rewrite lit_space.
  induction texts as [|t texts IH]; [reflexivity|].
  cbn [map concat]. rewrite <- app_assoc. cbn [app].
  unfold split at 1. rewrite split_from_space_app.
  now rewrite IH.
Qed.

Lemma Forall_concat_words (texts : list str) :
  Forall word (concat (map split texts)).
Proof.
  induction texts as [|t texts IH]; [constructor|].
  cbn [map concat]. apply Forall_app. split; [apply split_words | exact IH].
Qed.

Lemma page_text_readable (texts : list str) :
  page_text (map page_of texts)
  = Ok (concat (map (fun t => t ++ lit " ") texts)).
Proof.
  unfold page_text, range. rewrite length_map.
  exact (read_pages_all texts [] (lit "")).
Qed.

Lemma extract_body_readable (fitz_open : list byte -> result document)
    (pdf_file : uploaded_file) (texts : list str) :
  fitz_open (file_read pdf_file) = Ok (map page_of texts) ->
  extract_body fitz_open pdf_file
  = Ok (join [SP] (concat (map split texts))).
Proof.
  intros Hopen. unfold extract_body. rewrite Hopen. cbn [result_bind].
  rewrite page_text_readable. cbn [result_bind].
  now rewrite clean_text_eq, split_pages.
Qed.

(** X4: the space added after each page keeps the words of neighbouring
    pages apart: for a document whose pages all give their text, what the
    extractor cleans down to is the words of page 0, then those of page 1,
    and so on, joined by single spaces. *)
Theorem extract_words_of_pages (fitz_open : list byte -> result document)
    (pdf_file : uploaded_file) (texts : list str) :
  fitz_open (file_read pdf_file) = Ok (map page_of texts) ->
  extract_body fitz_open pdf_file
    = Ok (join [SP] (concat (map split texts))) /\
  value (extract_text_from_pdf fitz_open pdf_file)
    = match concat (map split texts) with
      | [] => None
      | words => Some (join [SP] words)
      end.
Proof.
  intros Hopen.
  pose proof (extract_body_readable fitz_open pdf_file texts Hopen) as E.
  split; [exact E|].
  rewrite extract_unfold, E.
  pose proof (Forall_concat_words texts) as Hw.
  destruct (concat (map split texts)) as [|w ws] eqn:Ec; [reflexivity|].
  destruct (join [SP] (w :: ws)) as [|c r] eqn:Ej; [|reflexivity].
  exfalso. apply (join_nonempty Hw); [discriminate | exact Ej].
Qed.

Lemma extract_words_of_pages_witness :
  extract_body (fun _ => Ok (map page_of two_pages)) hello_pdf
    = Ok (lit "Hello world.") /\
  value (extract_text_from_pdf (fun _ => Ok (map page_of two_pages))
                               hello_pdf)
    = Some (lit "Hello world.").
Proof.
  exact (@extract_words_of_pages (fun _ => Ok (map page_of two_pages))
           hello_pdf two_pages eq_refl).
Defined.

Lemma all_space_pages (texts : list str) :
  all_space (concat (map (fun t => t ++ lit " ") texts))
  <-> Forall all_space texts.
Proof.
  rewrite lit_space. unfold all_space.
  induction texts as [|t texts IH].
  - split; constructor.
  - cbn [map concat]. rewrite !Forall_app, IH. split.
    + intros [[Ht _] Hts]. now constructor.
    + intros H. inversion H; subst.
      repeat split; try assumption.
      constructor; [reflexivity | constructor].
Qed.

(** X5: for a document whose pages all give their text, the extractor
    reports "no readable text" exactly when every page text is made of
    whitespace only; a document without pages is such a document. *)
Theorem no_text_iff_blank (fitz_open : list byte -> result document)
    (pdf_file : uploaded_file) (texts : list str) :
  fitz_open (file_read pdf_file) = Ok (map page_of texts) ->
  (extract_text_from_pdf fitz_open pdf_file
     = (None, [st_error no_text_message])
   <-> Forall all_space texts).
Proof.
  intros Hopen. rewrite extract_unfold.
  unfold extract_body. rewrite Hopen. cbn [result_bind].
  rewrite page_text_readable. cbn [result_bind].
  rewrite <- all_space_pages, <- clean_text_empty.
  destruct (clean_text _) as [|c r].
  - split; reflexivity.
  - split; discriminate.
Qed.

Lemma no_text_iff_blank_witness :
  extract_text_from_pdf (fun _ => Ok (map page_of blank_pages)) hello_pdf
    = (None, [st_error no_text_message])
  <-> Forall all_space blank_pages.
Proof.
  exact (@no_text_iff_blank (fun _ => Ok (map page_of blank_pages))
           hello_pdf blank_pages eq_refl).
Defined.

Lemma read_pages_good_prefix (good : list str) (tail : document)
    (more : list nat) :
  forall (before : document) (text : str),
    read_pages (before ++ map page_of good ++ tail)
               (seq (length before) (length good) ++ more) text
    = read_pages (before ++ map page_of good ++ tail) more
                 (text ++ concat (map (fun t => t ++ lit " ") good)).
Proof.
  induction good as [|t good IH]; intros before text.
  - cbn [length seq app map concat]. now rewrite app_nil_r.
  - cbn [length seq app map read_pages]. unfold load_page.
    rewrite nth_error_app2, Nat.sub_diag by lia.
    cbn [nth_error result_bind page_of get_text].
    replace (before ++ page_of t :: map page_of good ++ tail)
      with ((before ++ [page_of t]) ++ map page_of good ++ tail)
      by (rewrite <- app_assoc; reflexivity).
    replace (S (length before)) with (length (before ++ [page_of t]))
      by (rewrite length_app; cbn [length]; lia).
    rewrite IH. cbn [concat]. f_equal.
    now rewrite <- !app_assoc.
Qed.

Lemma page_text_unreadable (good : list str) (e : str) (rest : document) :
  page_text (map page_of good ++ Page (Raise e) :: rest) = Raise e.
Proof.
  unfold page_text, range.
  rewrite length_app, length_map. cbn [length].
  rewrite seq_app. cbn [Nat.add].
  pose proof (read_pages_good_prefix good (Page (Raise e) :: rest)
                (seq (length good) (S (length rest))) [] (lit "")) as H.
  cbn [app length] in H. rewrite H. clear H.
  cbn [seq read_pages]. unfold load_page.
  rewrite nth_error_app2 by (rewrite length_map; lia).
  rewrite length_map, Nat.sub_diag. reflexivity.
Qed.

(** X6: the first page whose text cannot be read ends the extraction:
    whatever the pages before it held and whatever follows, the extractor
    returns nothing and reports that page's error. No partial text is
    returned. *)
Theorem unreadable_page_fails (fitz_open : list byte -> result document)
    (pdf_file : uploaded_file) (good : list str) (e : str)
    (rest : document) :
  fitz_open (file_read pdf_file)
    = Ok (map page_of good ++ Page (Raise e) :: rest) ->
  extract_text_from_pdf fitz_open pdf_file
  = (None, [st_error (lit "An error occurred during PDF processing: " ++ e)]).
Proof.
  intros Hopen. rewrite extract_unfold.
  unfold extract_body. rewrite Hopen. cbn [result_bind].
  rewrite page_text_unreadable. reflexivity.
Qed.

Lemma unreadable_page_fails_witness :
  extract_text_from_pdf (fun _ => Ok damaged_doc) hello_pdf
  = (None, [st_error (lit
      "An error occurred during PDF processing: bad xref")]).
Proof.
  exact (@unreadable_page_fails (fun _ => Ok damaged_doc) hello_pdf
           [lit "Chapter one"] (lit "bad xref")
           [page_of (lit "Chapter three")] eq_refl).
Defined.

(** ** The calls to the speech service *)

Lemma str_eqb_eq (a b : str) : str_eqb a b = true <-> a = b.
Proof.
  unfold str_eqb. destruct (list_eq_dec N.eq_dec a b) as [E|E].
  - now split.
  - split; [discriminate | intros H; contradiction].
Qed.

Lemma slow_flag (speed_option : str) :
  PrimFloat.ltb (speed_rate_of speed_option) 1.0%float
  = str_eqb speed_option (lit "Slow (0.5x)").
Proof.
  unfold speed_rate_of.
  destruct (str_eqb speed_option (lit "Slow (0.5x)")); reflexivity.
Qed.

Lemma synthesis_calls_app (a b : list event) :
  synthesis_calls (a ++ b) = synthesis_calls a ++ synthesis_calls b.
Proof. apply filter_app. Qed.

Lemma run_unfold (fitz_open : list byte -> result document)
    (gTTS : tts_request -> result (list byte))
    (os : OsPath.flavour) (f : uploaded_file)
    (speed_option : str) (pitch : float) (t : str) :
  value (extract_text_from_pdf fitz_open f) = Some t ->
  shown (main fitz_open gTTS os (Some f) speed_option pitch)
  = extraction_shown t
    ++ gTTS_call (request_of t (speed_rate_of speed_option))
       :: match gTTS (request_of t (speed_rate_of speed_option)) with
          | Ok payload => completion_shown os f (BytesIO.mk payload 0)
          | Raise e =>
              [st_error (audio_error_message e);
               st_error (lit "Could not create the MP3 file.")]
          end.
Proof.
  intros Ht.
  rewrite (@main_extracted fitz_open gTTS os f speed_option pitch t Ht).
  rewrite convert_unfold. f_equal.
  destruct (gTTS _) as [payload|e]; reflexivity.
Qed.

(** C3: "Slow (0.5x)" gives the rate 0.5 and "Normal (1.0x)" gives 1.0;
    the synthesizer calls the service exactly once, first thing, with the
    text, the language "en" and slow = (speed_rate < 1.0). In a run whose
    extraction returns the text [t], the one call to the service carries
    [t], "en" and slow = (speed_rate < 1.0) for the rate of the selected
    option: slow is true when "Slow (0.5x)" is selected and false when
    "Normal (1.0x)" is. *)
Theorem speed_selection_routes
    (fitz_open : list byte -> result document)
    (gTTS : tts_request -> result (list byte))
    (os : OsPath.flavour) (f : uploaded_file) (pitch : float) (t : str) :
  value (extract_text_from_pdf fitz_open f) = Some t ->
  speed_rate_of (lit "Slow (0.5x)") = 0.5%float /\
  speed_rate_of (lit "Normal (1.0x)") = 1.0%float /\
  (forall text speed_rate,
     synthesis_calls (shown (convert_text_to_mp3 gTTS text speed_rate pitch))
     = [gTTS_call (TTS text (lit "en") (PrimFloat.ltb speed_rate 1.0%float))]
     /\
     hd_error (shown (convert_text_to_mp3 gTTS text speed_rate pitch))
     = Some (gTTS_call
               (TTS text (lit "en") (PrimFloat.ltb speed_rate 1.0%float)))) /\
  (forall speed_option,
     synthesis_calls
       (shown (main fitz_open gTTS os (Some f) speed_option pitch))
     = [gTTS_call
          (TTS t (lit "en")
               (PrimFloat.ltb (speed_rate_of speed_option) 1.0%float))]) /\
  synthesis_calls
    (shown (main fitz_open gTTS os (Some f) (lit "Slow (0.5x)") pitch))
  = [gTTS_call (TTS t (lit "en") true)] /\
  synthesis_calls
    (shown (main fitz_open gTTS os (Some f) (lit "Normal (1.0x)") pitch))
  = [gTTS_call (TTS t (lit "en") false)].
Proof.
  intros Ht.
  assert (Hrun : forall speed_option,
    synthesis_calls
      (shown (main fitz_open gTTS os (Some f) speed_option pitch))
    = [gTTS_call
         (TTS t (lit "en")
              (PrimFloat.ltb (speed_rate_of speed_option) 1.0%float))]).
  { intros speed_option.
    rewrite (run_unfold fitz_open gTTS os f speed_option pitch Ht).
    rewrite synthesis_calls_app. unfold request_of.
    destruct (gTTS _) as [payload|e]; reflexivity. }
  split; [reflexivity | split; [reflexivity | split; [|split]]].
  - intros text speed_rate. rewrite convert_unfold. unfold request_of.
    destruct (gTTS _); split; reflexivity.
  - exact Hrun.
  - split; [exact (Hrun (lit "Slow (0.5x)"))
           | exact (Hrun (lit "Normal (1.0x)"))].
Qed.

Lemma speed_selection_routes_witness :
  synthesis_calls
    (shown (main (fun _ => Ok hello_doc) (service_returning mp3_frame)
                 OsPath.posix (Some hello_pdf) (lit "Slow (0.5x)")
                 1.0%float))
  = [gTTS_call (TTS (lit "Hello world.") (lit "en") true)] /\
  synthesis_calls
    (shown (main (fun _ => Ok hello_doc) (service_returning mp3_frame)
                 OsPath.posix (Some hello_pdf) (lit "Normal (1.0x)")
                 1.0%float))
  = [gTTS_call (TTS (lit "Hello world.") (lit "en") false)].
Proof.
  exact (proj2 (proj2 (proj2 (proj2
           (@speed_selection_routes (fun _ => Ok hello_doc)
              (service_returning mp3_frame) OsPath.posix hello_pdf
              1.0%float (lit "Hello world.") eq_refl))))).
Defined.

(** X7: a run calls the speech service at most once: not at all while no
    file is uploaded or when the extractor returns nothing, and otherwise
    exactly once, with the whole extracted text (not the preview), the
    language "en", and the slow flag set exactly when the selected option
    is the string "Slow (0.5x)"; every other option gives normal speed. *)
Theorem service_called_once
    (fitz_open : list byte -> result document)
    (gTTS : tts_request -> result (list byte))
    (os : OsPath.flavour) (pdf_file : option uploaded_file)
    (speed_option : str) (pitch : float) :
  synthesis_calls
    (shown (main fitz_open gTTS os pdf_file speed_option pitch))
  = match pdf_file with
    | Some f =>
        match value (extract_text_from_pdf fitz_open f) with
        | Some t =>
            [gTTS_call (TTS t (lit "en")
                          (str_eqb speed_option (lit "Slow (0.5x)")))]
        | None => []
        end
    | None => []
    end /\
  (str_eqb speed_option (lit "Slow (0.5x)") = true
   <-> speed_option = lit "Slow (0.5x)").
Proof.
  split; [|apply str_eqb_eq].
  destruct pdf_file as [f|]; [|reflexivity].
  destruct (value (extract_text_from_pdf fitz_open f)) as [t|] eqn:Ht.
  - rewrite (run_unfold fitz_open gTTS os f speed_option pitch Ht).
    rewrite synthesis_calls_app. unfold request_of. rewrite slow_flag.
    destruct (gTTS _) as [payload|e]; reflexivity.
  - destruct (@main_extraction_failed fitz_open gTTS os f speed_option
                pitch Ht) as [E [msg Emsg]].
    rewrite E, Emsg. reflexivity.
Qed.

(** X8: after a successful extraction the run shows the success note, the
    preview and the conversion notice, calls the service, and then shows
    either the success note, the player and the download button, both
    holding the one buffer with the service's bytes at offset 0, or two
    errors: the conversion error with the exception's text, followed by
    "Could not create the MP3 file.". *)
Theorem run_after_extraction
    (fitz_open : list byte -> result document)
    (gTTS : tts_request -> result (list byte))
    (os : OsPath.flavour) (f : uploaded_file)
    (speed_option : str) (pitch : float) (t : str) :
  value (extract_text_from_pdf fitz_open f) = Some t ->
  let req := TTS t (lit "en") (str_eqb speed_option (lit "Slow (0.5x)")) in
  shown (main fitz_open gTTS os (Some f) speed_option pitch)
  = [st_spinner (lit "Extracting text from PDF...");
     st_success (9989%N :: lit " Text extraction complete!");
     st_expander (lit "View Extracted Text");
     st_code (preview t);
     st_info (lit
       "Converting text to MP3. This may take a moment for large files...");
     gTTS_call req]
    ++ match gTTS req with
       | Ok payload =>
           [st_success (127881%N :: lit " Audiobook created successfully!");
            st_audio (BytesIO.mk payload 0) (lit "audio/mp3");
            st_download_button (lit "Download MP3 Audiobook")
              (BytesIO.mk payload 0)
              (fst (OsPath.splitext os (name f)) ++ lit "_audiobook.mp3")
              (lit "audio/mp3") (lit "primary")]
       | Raise e =>
           [st_error (lit "An error occurred during audio conversion: " ++ e);
            st_error (lit "Could not create the MP3 file.")]
       end.
Proof.
  intros Ht. cbv zeta.
  rewrite (run_unfold fitz_open gTTS os f speed_option pitch Ht).
  unfold request_of. rewrite slow_flag. reflexivity.
Qed.

Lemma run_after_extraction_witness :
  shown (main (fun _ => Ok hello_doc) service_down OsPath.posix
              (Some hello_pdf) (lit "Slow (0.5x)") 1.0%float)
  = [st_spinner (lit "Extracting text from PDF...");
     st_success (9989%N :: lit " Text extraction complete!");
     st_expander (lit "View Extracted Text");
     st_code (lit "Hello world.");
     st_info (lit
       "Converting text to MP3. This may take a moment for large files...");
     gTTS_call (TTS (lit "Hello world.") (lit "en") true);
     st_error (lit
       "An error occurred during audio conversion: Failed to connect");
     st_error (lit "Could not create the MP3 file.")].
Proof.
  exact (@run_after_extraction (fun _ => Ok hello_doc) service_down
           OsPath.posix hello_pdf (lit "Slow (0.5x)") 1.0%float
           (lit "Hello world.") eq_refl).
Defined.

(** ** The download name of an uploaded file *)

Module SplitextNames.

Import OsPath OsPathFacts.

Lemma between_at (a b : str) (x : char) :
  Slice.between (Z.of_nat (length a)) (Z.of_nat (length a) + 1) (a ++ x :: b)
  = [x].
Proof.
  unfold Slice.between.
  replace (Z.of_nat (length a) + 1)%Z with (Z.of_nat (S (length a))) by lia.
  rewrite !norm_of_nat.
  replace (a ++ x :: b) with ((a ++ [x]) ++ b)
    by (rewrite <- app_assoc; reflexivity).
  rewrite firstn_app.
  replace (S (length a) - length (a ++ [x])) with 0
    by (rewrite length_app; cbn [length]; lia).
  rewrite firstn_O, app_nil_r, firstn_all2
    by (rewrite length_app; cbn [length]; lia).
  rewrite skipn_app, Nat.sub_diag, skipn_all. reflexivity.
Qed.

Lemma str_eqb_single (x y : char) : str_eqb [x] [y] = (x =? y)%N.
Proof.
  unfold str_eqb.
  destruct (list_eq_dec N.eq_dec [x] [y]) as [E|E];
    destruct (N.eqb_spec x y) as [H|H]; try reflexivity.
  - inversion E. contradiction.
  - subst. contradiction.
Qed.

(** The loop stops at the first character that is not a dot. *)
Lemma skip_to_other (dots : str) (c : char) (more : str) (d : Z) :
  Forall (fun x => x = extsep) dots ->
  c <> extsep ->
  forall (pre : str) (fuel : nat),
    (Z.of_nat (length pre + length dots) < d)%Z ->
    length dots < fuel ->
    skip_leading_dots fuel (pre ++ dots ++ c :: more)
                      (Z.of_nat (length pre)) d
    = (Slice.to d (pre ++ dots ++ c :: more),
       Slice.from d (pre ++ dots ++ c :: more)).
Proof.
  intros Hdots Hc. induction Hdots as [|x dots -> _ IH]; intros pre fuel Hd Hf.
  - destruct fuel as [|fuel]; [cbn [length] in Hf; lia|].
    cbn [skip_leading_dots app].
    destruct (Z.ltb_spec (Z.of_nat (length pre)) d) as [_|H];
      [|cbn [length] in Hd; lia].
    rewrite between_at, str_eqb_single.
    destruct (N.eqb_spec c extsep) as [E|_]; [contradiction | reflexivity].
  - destruct fuel as [|fuel]; [lia|].
    cbn [skip_leading_dots app].
    destruct (Z.ltb_spec (Z.of_nat (length pre)) d) as [_|H];
      [|cbn [length] in Hd; lia].
    rewrite between_at, str_eqb_single, N.eqb_refl. cbn [negb].
    replace (pre ++ extsep :: dots ++ c :: more)
      with ((pre ++ [extsep]) ++ dots ++ c :: more)
      by (rewrite <- app_assoc; reflexivity).
    replace (Z.of_nat (length pre) + 1)%Z
      with (Z.of_nat (length (pre ++ [extsep])))
      by (rewrite length_app; cbn [length]; lia).
    apply IH.
    + rewrite length_app. cbn [length] in *. lia.
    + cbn [length] in Hf. lia.
Qed.

(** The loop runs out when only dots come before the last dot. *)
Lemma skip_only_dots (dots : str) (rest : str) :
  Forall (fun x => x = extsep) dots ->
  forall (pre : str) (fuel : nat),
    skip_leading_dots fuel (pre ++ dots ++ rest)
                      (Z.of_nat (length pre))
                      (Z.of_nat (length pre + length dots))
    = (pre ++ dots ++ rest, []).
Proof.
  intros Hdots. induction Hdots as [|x dots -> _ IH]; intros pre fuel.
  - destruct fuel as [|fuel]; [reflexivity|].
    cbn [skip_leading_dots length].
    destruct (Z.ltb_spec (Z.of_nat (length pre))
                (Z.of_nat (length pre + 0))) as [H|_]; [lia | reflexivity].
  - destruct fuel as [|fuel]; [reflexivity|].
    cbn [skip_leading_dots app].
    destruct (Z.ltb_spec (Z.of_nat (length pre))
                (Z.of_nat (length pre + length (extsep :: dots))))
      as [_|H]; [|reflexivity].
    rewrite between_at, str_eqb_single, N.eqb_refl. cbn [negb].
    replace (pre ++ extsep :: dots ++ rest)
      with ((pre ++ [extsep]) ++ dots ++ rest)
      by (rewrite <- app_assoc; reflexivity).
    replace (Z.of_nat (length pre) + 1)%Z
      with (Z.of_nat (length (pre ++ [extsep])))
      by (rewrite length_app; cbn [length]; lia).
    replace (length pre + length (extsep :: dots))
      with (length (pre ++ [extsep]) + length dots)
      by (rewrite length_app; cbn [length]; lia).
    apply IH.
Qed.

Lemma rfind_absent (p : str) (c : char) : ~ In c p -> rfind p c = (-1)%Z.
Proof. intros H. unfold rfind. now apply rfind_from_absent. Qed.

Lemma rfind_last (pre post : str) (c : char) :
  ~ In c post -> rfind (pre ++ c :: post) c = Z.of_nat (length pre).
Proof.
  intros H. unfold rfind. rewrite rfind_from_last by (exact H || lia). lia.
Qed.

Lemma splitext_basename_unfold (os : flavour) (p : str) :
  basename_only os p ->
  splitext os p
  = if (rfind p extsep >? -1)%Z
    then skip_leading_dots (Z.to_nat (rfind p extsep - 0)) p 0
                           (rfind p extsep)
    else (p, []).
Proof.
  intros [Hsep Halt]. unfold splitext, _splitext.
  rewrite (@rfind_absent p (sep os) Hsep).
  destruct (altsep os) as [a|]; [rewrite (@rfind_absent p a Halt)|]; reflexivity.
Qed.

Lemma all_dots_repeat (k : nat) :
  Forall (fun x => x = extsep) (repeat extsep k).
Proof. induction k; constructor; auto. Qed.

End SplitextNames.

(** X9: for a file name without directory part of the form stem, dot,
    extension, where the extension has no dot and the stem has a character
    that is not a dot, [splitext] gives exactly the stem and the dotted
    extension, so the download is named stem_audiobook.mp3; dots inside the
    stem stay. *)
Theorem splitext_plain_name (os : OsPath.flavour) (k : nat) (c : char)
    (stem' ext : str) :
  let stem := repeat OsPath.extsep k ++ c :: stem' in
  basename_only os (stem ++ OsPath.extsep :: ext) ->
  c <> OsPath.extsep ->
  ~ In OsPath.extsep ext ->
  OsPath.splitext os (stem ++ OsPath.extsep :: ext)
    = (stem, OsPath.extsep :: ext) /\
  fst (OsPath.splitext os (stem ++ OsPath.extsep :: ext))
    ++ lit "_audiobook.mp3"
    = stem ++ lit "_audiobook.mp3".
Proof.
  cbv zeta. intros Hbase Hc Hext.
  set (stem := repeat OsPath.extsep k ++ c :: stem').
  assert (E : OsPath.splitext os (stem ++ OsPath.extsep :: ext)
              = (stem, OsPath.extsep :: ext)).
  { rewrite (@SplitextNames.splitext_basename_unfold os
               (stem ++ OsPath.extsep :: ext) Hbase).
    rewrite (@SplitextNames.rfind_last stem ext OsPath.extsep Hext).
    destruct (Z.gtb_spec (Z.of_nat (length stem)) (-1)) as [_|H]; [|lia].
    rewrite Z.sub_0_r, Nat2Z.id.
    assert (Hp : stem ++ OsPath.extsep :: ext
                 = [] ++ repeat OsPath.extsep k
                   ++ c :: (stem' ++ OsPath.extsep :: ext)).
    { subst stem. cbn [app]. rewrite <- app_assoc. reflexivity. }
    assert (Hlen : length stem = k + S (length stem')).
    { subst stem. rewrite length_app, repeat_length. reflexivity. }
    rewrite Hp.
    change 0%Z with (Z.of_nat (length (@nil char))).
    rewrite (@SplitextNames.skip_to_other (repeat OsPath.extsep k) c
               (stem' ++ OsPath.extsep :: ext) (Z.of_nat (length stem))
               (SplitextNames.all_dots_repeat k) Hc [] (length stem)).
    - rewrite <- Hp. unfold Slice.to, Slice.from.
      rewrite OsPathFacts.norm_of_nat.
      rewrite firstn_app, Nat.sub_diag, firstn_all, firstn_O, app_nil_r.
      rewrite skipn_app, Nat.sub_diag, skipn_all. reflexivity.
    - rewrite repeat_length. cbn [length]. lia.
    - rewrite repeat_length. lia. }
  split; [exact E | now rewrite E].
Qed.

Lemma splitext_plain_name_witness :
  OsPath.splitext OsPath.posix (lit "..notes.v2.pdf")
    = (lit "..notes.v2", lit ".pdf") /\
  fst (OsPath.splitext OsPath.posix (lit "..notes.v2.pdf"))
    ++ lit "_audiobook.mp3"
    = lit "..notes.v2_audiobook.mp3".
Proof.
  refine (@splitext_plain_name OsPath.posix 2 110%N (lit "otes.v2")
            (lit "pdf") _ _ _).
  - split; [|exact I]. vm_compute. intuition discriminate.
  - discriminate.
  - vm_compute. intuition discriminate.
Defined.

(** X10: a file name without directory part that is some dots followed by
    characters without dot has no extension for [splitext]: the name is
    kept whole, so an upload named ".pdf" is offered as
    ".pdf_audiobook.mp3", and a name without any dot just gets the suffix. *)
Theorem splitext_no_extension (os : OsPath.flavour) (k : nat) (tail : str) :
  basename_only os (repeat OsPath.extsep k ++ tail) ->
  ~ In OsPath.extsep tail ->
  OsPath.splitext os (repeat OsPath.extsep k ++ tail)
    = (repeat OsPath.extsep k ++ tail, []) /\
  fst (OsPath.splitext os (repeat OsPath.extsep k ++ tail))
    ++ lit "_audiobook.mp3"
    = repeat OsPath.extsep k ++ tail ++ lit "_audiobook.mp3".
Proof.
  intros Hbase Htail.
  assert (E : OsPath.splitext os (repeat OsPath.extsep k ++ tail)
              = (repeat OsPath.extsep k ++ tail, [])).
  { rewrite (@SplitextNames.splitext_basename_unfold os _ Hbase).
    destruct k as [|k].
    - cbn [repeat app]. rewrite (@SplitextNames.rfind_absent tail OsPath.extsep Htail).
      reflexivity.
    - assert (Hp : repeat OsPath.extsep (S k) ++ tail
                   = repeat OsPath.extsep k ++ OsPath.extsep :: tail).
      { change (S k) with (1 + k). rewrite Nat.add_comm, repeat_app.
        rewrite <- app_assoc. reflexivity. }
      rewrite Hp, (@SplitextNames.rfind_last (repeat OsPath.extsep k) tail
                    OsPath.extsep Htail), repeat_length.
      destruct (Z.gtb_spec (Z.of_nat k) (-1)) as [_|H]; [|lia].
      pose proof (@SplitextNames.skip_only_dots (repeat OsPath.extsep k)
                    (OsPath.extsep :: tail)
                    (SplitextNames.all_dots_repeat k) []
                    (Z.to_nat (Z.of_nat k - 0))) as H.
      cbn [app length Nat.add] in H. rewrite repeat_length in H.
      exact H. }
  split; [exact E|].
  rewrite E. cbn [fst]. now rewrite <- app_assoc.
Qed.

Lemma splitext_no_extension_witness :
  OsPath.splitext OsPath.nt (lit ".pdf") = (lit ".pdf", []) /\
  fst (OsPath.splitext OsPath.nt (lit ".pdf")) ++ lit "_audiobook.mp3"
    = lit ".pdf_audiobook.mp3".
Proof.
  refine (@splitext_no_extension OsPath.nt 1 (lit "pdf") _ _).
  - split; vm_compute; intuition discriminate.
  - vm_compute. intuition discriminate.
Defined.

(** ** The preview *)

(** X11: the preview never has more than 1003 characters and agrees with
    the text on the first 1000; for a text of 1001 or 1002 characters it is
    longer than the text itself. *)
Theorem preview_bounds (t : str) :
  length (preview t) <= 1003 /\
  firstn 1000 (preview t) = firstn 1000 t /\
  (len t = 1001%Z \/ len t = 1002%Z -> length t < length (preview t)).
Proof.
  unfold len.
  destruct (Z.le_gt_cases (len t) 1000) as [Hle|Hgt].
  - rewrite (preview_short t Hle). unfold len in Hle.
    split; [lia | split; [reflexivity | lia]].
  - destruct (preview_long t Hgt) as [E Hlen]. unfold len in Hgt, Hlen.
    assert (Hl : length (firstn 1000 t) = 1000) by lia.
    rewrite E, length_app. 
    change (length (lit "...")) with 3.
    split; [lia | split; [|lia]].
    rewrite firstn_app, Hl, Nat.sub_diag, firstn_O, app_nil_r.
    rewrite <- Hl at 1. apply firstn_all.
Qed.

(** ** The whitespace that is left *)

(** X12: whatever whitespace the raw text holds (tabs, no-break spaces,
    line and paragraph separators, ...), the only whitespace character in
    the cleaned text is the plain space. *)
Theorem clean_text_only_plain_spaces (text : str) (c : char) :
  In c (clean_text text) -> isspace c = true -> c = SP.
Proof.
  intros Hin Hc. rewrite clean_text_eq in Hin.
  pose proof (join_chars (split_words text)) as H.
  rewrite Forall_forall in H.
  destruct (H c Hin) as [E|E]; [exact E | congruence].
Qed.

Lemma clean_text_only_plain_spaces_witness :
  let raw := [9%N; 72%N; 105%N; 160%N; 8195%N; 121%N; 111%N; 117%N; 11%N] in
  clean_text raw = [72%N; 105%N; SP; 121%N; 111%N; 117%N] /\ SP = SP.
Proof.
  split; [reflexivity|].
  refine (@clean_text_only_plain_spaces
            [9%N; 72%N; 105%N; 160%N; 8195%N; 121%N; 111%N; 117%N; 11%N]
            SP _ eq_refl).
  vm_compute. tauto.
Defined.

(** ** The download name, for every path *)

Module SplitextPaths.

Import OsPath OsPathFacts SplitextNames.

Lemma rfind_before (x y : str) (c : char) :
  ~ In c y -> (rfind (x ++ y) c < Z.of_nat (length x))%Z.
Proof.
  intros Hy.
  destruct (last_occurrence c x) as [Hx | [pre [post [-> Hpost]]]].
  - rewrite (@rfind_absent (x ++ y) c); [lia|].
    intros H. apply in_app_or in H. tauto.
  - rewrite <- app_assoc. cbn [app].
    rewrite (@rfind_last pre (post ++ y) c).
    + rewrite length_app. cbn [length]. lia.
    + intros H. apply in_app_or in H. tauto.
Qed.

(** The index of the last separator is the one before the last component. *)
Lemma sepIndex_dir (os : flavour) (dir base : str) :
  dir_part os dir ->
  basename_only os base ->
  match altsep os with
  | Some a => Z.max (rfind (dir ++ base) (sep os)) (rfind (dir ++ base) a)
  | None => rfind (dir ++ base) (sep os)
  end = (Z.of_nat (length dir) - 1)%Z.
Proof.
  intros [-> | [dir' [s [-> Hs]]]] [Hsep Halt].
  - cbn [app length Z.of_nat]. rewrite (@rfind_absent base (sep os) Hsep).
    destruct (altsep os) as [a|]; [|reflexivity].
    now rewrite (@rfind_absent base a Halt).
  - rewrite <- app_assoc, length_app. cbn [app length].
    unfold is_sep in Hs. destruct os; cbn [altsep sep] in *.
    + destruct Hs as [-> | Hs]; [|discriminate].
      rewrite (@rfind_last dir' base 47%N Hsep). lia.
    + destruct Hs as [-> | Hs].
      * rewrite (@rfind_last dir' base 92%N Hsep).
        assert (Hb : ~ In 47%N (92%N :: base)).
        { intros [H|H]; [discriminate | contradiction]. }
        pose proof (@rfind_before dir' (92%N :: base) 47%N Hb) as Hlt.
        rewrite Z.max_l by (apply Z.lt_le_incl; exact Hlt). lia.
      * inversion Hs; subst s.
        rewrite (@rfind_last dir' base 47%N Halt).
        assert (Hb : ~ In 92%N (47%N :: base)).
        { intros [H|H]; [discriminate | contradiction]. }
        pose proof (@rfind_before dir' (47%N :: base) 92%N Hb) as Hlt.
        rewrite Z.max_r by (apply Z.lt_le_incl; exact Hlt). lia.
Qed.

Lemma take_drop_at (a b : str) :
  (Slice.to (Z.of_nat (length a)) (a ++ b),
   Slice.from (Z.of_nat (length a)) (a ++ b)) = (a, b).
Proof.
  unfold Slice.to, Slice.from. rewrite norm_of_nat.
  rewrite firstn_app, Nat.sub_diag, firstn_all, firstn_O, app_nil_r.
  rewrite skipn_app, Nat.sub_diag, skipn_all. reflexivity.
Qed.

(** The extension of the last component is removed, the directory stays. *)
Lemma splitext_with_extension (os : flavour) (dir base stem e : str) :
  dir_part os dir ->
  basename_only os base ->
  has_extension base stem e ->
  splitext os (dir ++ base) = (dir ++ stem, extsep :: e).
Proof.
  intros Hdir Hbase [k [c [stem' [Hstem [Hc [He Hb]]]]]].
  assert (Hp1 : dir ++ base = (dir ++ stem) ++ extsep :: e).
  { rewrite Hb. apply app_assoc. }
  assert (Hp2 : dir ++ base
                = dir ++ repeat extsep k ++ c :: (stem' ++ extsep :: e)).
  { rewrite Hb, Hstem, <- app_assoc. reflexivity. }
  assert (Hlen : length (dir ++ stem) = length dir + k + S (length stem')).
  { rewrite Hstem, !length_app, repeat_length. cbn [length]. lia. }
  assert (Hdot : rfind (dir ++ base) extsep = Z.of_nat (length (dir ++ stem))).
  { rewrite Hp1. now apply rfind_last. }
  unfold splitext, _splitext.
  rewrite (sepIndex_dir Hdir Hbase), Hdot.
  destruct (Z.gtb_spec (Z.of_nat (length (dir ++ stem)))
              (Z.of_nat (length dir) - 1)) as [_|H]; [|lia].
  replace (Z.of_nat (length dir) - 1 + 1)%Z with (Z.of_nat (length dir))
    by lia.
  rewrite Hp2 at 1.
  rewrite (@skip_to_other (repeat extsep k) c (stem' ++ extsep :: e)
             (Z.of_nat (length (dir ++ stem))) (all_dots_repeat k) Hc dir).
  - rewrite <- Hp2, Hp1. apply take_drop_at.
  - rewrite repeat_length. lia.
  - rewrite repeat_length. lia.
Qed.

(** A last component without extension leaves the path as it is. *)
Lemma splitext_without_extension (os : flavour) (dir base : str) :
  dir_part os dir ->
  basename_only os base ->
  no_extension base ->
  splitext os (dir ++ base) = (dir ++ base, []).
Proof.
  intros Hdir Hbase [k [tail [Hb Htail]]].
  unfold splitext, _splitext. rewrite (sepIndex_dir Hdir Hbase).
  destruct k as [|k].
  - cbn [repeat app] in Hb. subst base.
    pose proof (@rfind_before dir tail extsep Htail) as Hlt.
    destruct (Z.gtb_spec (rfind (dir ++ tail) extsep)
                (Z.of_nat (length dir) - 1)) as [H|_]; [lia | reflexivity].
  - assert (Hb' : base = repeat extsep k ++ extsep :: tail).
    { rewrite Hb. change (S k) with (1 + k).
      rewrite Nat.add_comm, repeat_app, <- app_assoc. reflexivity. }
    assert (Hdot : rfind (dir ++ base) extsep
                   = Z.of_nat (length dir + length (repeat extsep k))).
    { rewrite Hb', app_assoc, (@rfind_last _ tail extsep Htail).
      now rewrite length_app. }
    rewrite Hdot.
    destruct (Z.gtb_spec (Z.of_nat (length dir + length (repeat extsep k)))
                (Z.of_nat (length dir) - 1)) as [_|H]; [|lia].
    replace (Z.of_nat (length dir) - 1 + 1)%Z with (Z.of_nat (length dir))
      by lia.
    rewrite Hb'.
    apply (@skip_only_dots (repeat extsep k) (extsep :: tail)
             (all_dots_repeat k) dir).
Qed.

Lemma is_sep_dec (os : flavour) (c : char) :
  is_sep os c \/
  (c <> sep os /\ match altsep os with Some a => c <> a | None => True end).
Proof.
  unfold is_sep. destruct os; cbn [sep altsep].
  - destruct (N.eq_dec c 47) as [->|H].
    + left. now left.
    + right. split; [exact H | exact I].
  - destruct (N.eq_dec c 92) as [->|H]; [left; now left|].
    destruct (N.eq_dec c 47) as [->|H'].
    + left. now right.
    + right. split; assumption.
Qed.

(** Every path is a directory part followed by a last component. *)
Lemma split_dir (os : flavour) (p : str) :
  exists dir base,
    p = dir ++ base /\ dir_part os dir /\ basename_only os base.
Proof.
  induction p as [|x p [dir [base [-> [Hdir Hbase]]]]].
  - exists [], []. split; [reflexivity | split; [now left|]].
    split; [tauto | destruct (altsep os); tauto].
  - destruct Hdir as [-> | [dir' [s [-> Hs]]]].
    + destruct (is_sep_dec os x) as [Hx | [Hx Hx']].
      * exists [x], base. split; [reflexivity | split; [|exact Hbase]].
        right. exists [], x. now split.
      * exists [], (x :: base). split; [reflexivity | split; [now left|]].
        destruct Hbase as [Hb1 Hb2]. split.
        -- intros [H|H]; [congruence | contradiction].
        -- destruct (altsep os) as [a|]; [|exact I].
           intros [H|H]; [congruence | contradiction].
    + exists (x :: dir' ++ [s]), base.
      split; [reflexivity | split; [|exact Hbase]].
      right. exists (x :: dir'), s. now split.
Qed.

Lemma leading_dots (s : str) :
  exists k rest,
    s = repeat extsep k ++ rest /\
    (rest = [] \/ exists c r, rest = c :: r /\ c <> extsep).
Proof.
  induction s as [|x s [k [rest [-> Hrest]]]].
  - exists 0, []. split; [reflexivity | now left].
  - destruct (N.eq_dec x extsep) as [->|Hx].
    + exists (S k), rest. split; [reflexivity | exact Hrest].
    + exists 0, (x :: repeat extsep k ++ rest).
      split; [reflexivity|]. right. now exists x, (repeat extsep k ++ rest).
Qed.

(** Every last component has an extension or has none. *)
Lemma base_shape (base : str) :
  (exists stem e, has_extension base stem e) \/ no_extension base.
Proof.
  destruct (last_occurrence extsep base) as [Hno | [pre [post [-> Hpost]]]].
  - right. exists 0, base. now split.
  - destruct (leading_dots pre) as [k [rest [-> [-> | [c [r [-> Hc]]]]]]].
    + right. exists (S k), post. split; [|exact Hpost].
      rewrite app_nil_r. change (S k) with (1 + k).
      rewrite Nat.add_comm, repeat_app, <- app_assoc. reflexivity.
    + left. exists (repeat extsep k ++ c :: r), post, k, c, r.
      repeat split; assumption.
Qed.

End SplitextPaths.

(** ** What a successful run presents *)

(** C8: a run in which both stages succeed ends with the download button;
    its file name is the uploaded name without its extension, followed by
    "_audiobook.mp3", and its MIME type is "audio/mp3". The extension is
    that of [os.path.splitext], for every name: the name is a directory
    part (empty, or ending with a separator) and a last component; when the
    last component is a stem with a character that is not a dot, then a dot
    and characters without dot, the dot and what follows it are removed and
    the directory part and the stem are kept whole; when it is some dots
    followed by characters without dot, nothing is removed; and every name
    is of one of these two kinds. The two parts always make up the name
    again. For "sample.pdf" the name offered is "sample_audiobook.mp3". *)
Theorem download_named
    (fitz_open : list byte -> result document)
    (gTTS : tts_request -> result (list byte))
    (os : OsPath.flavour) (f : uploaded_file)
    (speed_option : str) (pitch : float) (t : str) (fp : BytesIO.t) :
  value (extract_text_from_pdf fitz_open f) = Some t ->
  value (convert_text_to_mp3 gTTS t (speed_rate_of speed_option) pitch)
    = Some fp ->
  let stem := fst (OsPath.splitext os (name f)) in
  let ext := snd (OsPath.splitext os (name f)) in
  (exists before,
     shown (main fitz_open gTTS os (Some f) speed_option pitch)
     = before ++ [st_download_button (lit "Download MP3 Audiobook") fp
                    (stem ++ lit "_audiobook.mp3")
                    (lit "audio/mp3") (lit "primary")]) /\
  stem ++ ext = name f /\
  (ext = [] \/ exists e, ext = OsPath.extsep :: e /\ ~ In OsPath.extsep e) /\
  (name f = lit "sample.pdf" ->
   stem ++ lit "_audiobook.mp3" = lit "sample_audiobook.mp3") /\
  (forall dir base base_stem e,
     name f = dir ++ base ->
     dir_part os dir ->
     basename_only os base ->
     has_extension base base_stem e ->
     stem = dir ++ base_stem /\ ext = OsPath.extsep :: e) /\
  (forall dir base,
     name f = dir ++ base ->
     dir_part os dir ->
     basename_only os base ->
     no_extension base ->
     stem = name f /\ ext = []) /\
  (exists dir base,
     name f = dir ++ base /\
     dir_part os dir /\
     basename_only os base /\
     ((exists base_stem e, has_extension base base_stem e)
      \/ no_extension base)).
Proof.
  intros Ht Hfp. cbv zeta.
  split; [|split; [|split; [|split; [|split; [|split]]]]].
  - rewrite (@main_extracted fitz_open gTTS os f speed_option pitch t Ht).
    rewrite Hfp. eexists.
    rewrite !app_assoc.
    change [st_success (127881%N :: lit " Audiobook created successfully!");
            st_audio fp (lit "audio/mp3"); download_of os f fp]
      with ([st_success (127881%N :: lit " Audiobook created successfully!");
             st_audio fp (lit "audio/mp3")] ++ [download_of os f fp]).
    rewrite app_assoc. reflexivity.
  - apply OsPathFacts.splitext_recompose.
  - apply OsPathFacts.splitext_extension.
  - intros ->. destruct os; reflexivity.
  - intros dir base base_stem e Hname Hdir Hbase Hext.
    rewrite Hname.
    rewrite (SplitextPaths.splitext_with_extension Hdir Hbase Hext).
    split; reflexivity.
  - intros dir base Hname Hdir Hbase Hno.
    rewrite Hname.
    rewrite (SplitextPaths.splitext_without_extension Hdir Hbase Hno).
    split; reflexivity.
  - destruct (SplitextPaths.split_dir os (name f))
      as [dir [base [Hname [Hdir Hbase]]]].
    exists dir, base. repeat split; try assumption.
    + apply Hbase.
    + apply Hbase.
    + apply SplitextPaths.base_shape.
Qed.

Lemma download_named_witness :
  (exists before,
     shown (main (fun _ => Ok hello_doc) (service_returning mp3_frame)
                 OsPath.posix (Some hello_pdf) (lit "Normal (1.0x)")
                 1.0%float)
     = before ++ [st_download_button (lit "Download MP3 Audiobook")
                    (BytesIO.mk mp3_frame 0)
                    (lit "sample_audiobook.mp3")
                    (lit "audio/mp3") (lit "primary")]) /\
  (fst (OsPath.splitext OsPath.posix (name report_pdf))
   = lit "scans.2024/report.v2" /\
   snd (OsPath.splitext OsPath.posix (name report_pdf)) = lit ".pdf").
Proof.
  split.
  - exact (proj1 (@download_named (fun _ => Ok hello_doc)
             (service_returning mp3_frame) OsPath.posix hello_pdf
             (lit "Normal (1.0x)") 1.0%float (lit "Hello world.")
             (BytesIO.mk mp3_frame 0) eq_refl eq_refl)).
  - refine (proj1 (proj2 (proj2 (proj2 (proj2
             (@download_named (fun _ => Ok hello_doc)
                (service_returning mp3_frame) OsPath.posix report_pdf
                (lit "Normal (1.0x)") 1.0%float (lit "Hello world.")
                (BytesIO.mk mp3_frame 0) eq_refl eq_refl)))))
             (lit "scans.2024/") (lit "report.v2.pdf") (lit "report.v2")
             (lit "pdf") eq_refl _ _ _).
    + right. exists (lit "scans.2024"), 47%N. split; [reflexivity|].
      left. reflexivity.
    + split; [|exact I]. vm_compute. intuition discriminate.
    + exists 0, 114%N, (lit "eport.v2").
      split; [reflexivity|].
      split; [discriminate|].
      split; [|reflexivity].
      vm_compute. intuition discriminate.
Defined.
